(** * fruitfly: sampling of compressed SMILES corpora and Bloom-filter matching

    A shallow embedding of [fruitfly.py] and the proofs of the properties its
    specification states about it.

    Conventions of the embedding.
    - A Python [str] is a Rocq [string]; the character-level algorithms run on
      its [list ascii].  The model covers ASCII text: on it [str.strip],
      [str.upper], the class [\d] of [re], [float()] and [int()] are given
      exactly; characters above 127 are treated as letters without case.
    - A Python [int] is a [Z]; a Python [float] is an IEEE-754 binary64 value,
      taken from the Standard Library's [SpecFloat] at precision 53 and
      maximal exponent 1024.
    - A raised exception is a value of [exn], carrying the Python class and the
      message; a function that may raise returns a [result].
    - [random.randrange], the Bloom filter of [molbloom], [glob.glob] and the
      files read are collaborators of the program: they are section variables.
*)

From Stdlib Require Import ZArith Ascii String List Bool Lia.
From Stdlib Require Import Floats.SpecFloat.
From stdpp Require Import base option list gmap strings.

#[local] Set Warnings "-clear-no-such-hyp".

Local Open Scope Z_scope.

(** ** Exceptions and results *)

Inductive exn : Type :=
| ValueError (msg : string)
| OverflowError (msg : string)
| ZeroDivisionError (msg : string)
| OSError (msg : string).

Inductive result (A : Type) : Type :=
| Ok (a : A)
| Raise (e : exn).

Arguments Ok {A} a.
Arguments Raise {A} e.

#[global] Instance result_ret : MRet result := @Ok.
#[global] Instance result_bind : MBind result := fun A B f m =>
  match m with
  | Ok a => f a
  | Raise e => Raise e
  end.

(** ** Python strings *)

Module Py.

Definition chars (s : string) : list ascii := list_ascii_of_string s.
Definition str (l : list ascii) : string := string_of_list_ascii l.

Definition code (c : ascii) : Z := Z.of_N (N_of_ascii c).

Definition is_digit (c : ascii) : bool := (48 <=? code c) && (code c <=? 57).

Definition digit_value (c : ascii) : Z := code c - 48.

(** The characters [str.strip] removes: TAB, LF, VT, FF, CR, the four
    separators FS, GS, RS, US and the space. *)
Definition is_space (c : ascii) : bool :=
  ((9 <=? code c) && (code c <=? 13)) || ((28 <=? code c) && (code c <=? 32)).

Definition upper_char (c : ascii) : ascii :=
  if (97 <=? code c) && (code c <=? 122)
  then ascii_of_N (Z.to_N (code c - 32))
  else c.

Definition lower_char (c : ascii) : ascii :=
  if (65 <=? code c) && (code c <=? 90)
  then ascii_of_N (Z.to_N (code c + 32))
  else c.

Fixpoint lstrip (l : list ascii) : list ascii :=
  match l with
  | c :: l' => if is_space c then lstrip l' else l
  | [] => []
  end.

Definition rstrip (l : list ascii) : list ascii := rev (lstrip (rev l)).

Definition strip_chars (l : list ascii) : list ascii := rstrip (lstrip l).

(** [s.strip()] *)
Definition strip (s : string) : string := str (strip_chars (chars s)).

(** [s.upper()] *)
Definition upper (s : string) : string := str (map upper_char (chars s)).

Definition chars_eqb (l1 l2 : list ascii) : bool := bool_decide (l1 = l2).

(** [s.endswith(suffix)] *)
Definition endswith (s suffix : string) : bool :=
  let l := chars s in
  let x := chars suffix in
  (length x <=? length l)%nat &&
  chars_eqb (drop (length l - length x)%nat l) x.

(** [s[:-1]] *)
Definition drop_last (s : string) : string := str (removelast (chars s)).

(** *** Numeric literals: the rule for underscores shared by [int()] and
    [float()].  An underscore stands between two digits. *)

Fixpoint underscores_ok_from (prev : ascii) (l : list ascii) : bool :=
  match l with
  | [] => negb (Ascii.eqb prev "_")
  | c :: l' =>
      (if Ascii.eqb c "_" then is_digit prev
       else if Ascii.eqb prev "_" then is_digit c else true)
      && underscores_ok_from c l'
  end.

Definition underscores_ok (l : list ascii) : bool := underscores_ok_from "000" l.

Definition remove_underscores (l : list ascii) : list ascii :=
  filter (fun c => c ≠ "_"%char) l.

(** The longest prefix of digits, and what follows it. *)
Fixpoint span_digits (l : list ascii) : list ascii * list ascii :=
  match l with
  | c :: l' =>
      if is_digit c
      then let '(ds, r) := span_digits l' in (c :: ds, r)
      else ([], l)
  | [] => ([], [])
  end.

(** The number a list of digits denotes, continuing from [acc]. *)
Definition decimal_from (acc : Z) (ds : list ascii) : Z :=
  fold_left (fun n c => 10 * n + digit_value c) ds acc.

Definition decimal (ds : list ascii) : Z := decimal_from 0 ds.

(** An optional sign: [true] for a minus. *)
Definition split_sign (l : list ascii) : bool * list ascii :=
  match l with
  | c :: l' =>
      if Ascii.eqb c "-" then (true, l')
      else if Ascii.eqb c "+" then (false, l')
      else (false, l)
  | [] => (false, [])
  end.

(** *** [int(s)] on a string, in base 10

    Every literal is converted, however long.  (CPython ends the message of
    the exception with the text it was given.) *)

Definition int_of_str (s : string) : result Z :=
  let invalid := Raise (ValueError "invalid literal for int() with base 10") in
  let l := strip_chars (chars s) in
  let '(neg, body) := split_sign l in
  if underscores_ok body then
    match span_digits (remove_underscores body) with
    | (d :: ds, []) => Ok (cond_Zopp neg (decimal (d :: ds)))
    | _ => invalid
    end
  else invalid.

(** *** Floating point: binary64 *)

Definition prec : Z := 53.
Definition emax : Z := 1024.

Abbreviation float := spec_float.

(** The binary64 value nearest to [(-1)^neg * n / d] (ties to even), for
    positive [n] and [d]. *)
Definition float_of_ratio (neg : bool) (n d : positive) : float :=
  let '(q, e, l) := SFdiv_core_binary prec emax (Zpos n) 0 (Zpos d) 0 in
  binary_round_aux prec emax neg q e l.

(** The binary64 value nearest to [(-1)^neg * m * 10^x]. *)
Definition float_of_decimal (neg : bool) (m x : Z) : float :=
  match m with
  | Zpos p =>
      if 0 <=? x
      then binary_round prec emax neg (p * Z.to_pos (10 ^ x)) 0
      else float_of_ratio neg p (Z.to_pos (10 ^ (- x)))
  | _ => S754_zero neg
  end.

(** [float(n)] for an integer [n]. *)
Definition float_of_int (n : Z) : result float :=
  match binary_normalize prec emax n 0 false with
  | S754_infinity _ => Raise (OverflowError "int too large to convert to float")
  | f => Ok f
  end.

(** The exponent part of a float literal: [e] or [E], an optional sign and at
    least one digit, up to the end of the string. *)
Definition parse_exponent (l : list ascii) : option Z :=
  match l with
  | [] => Some 0
  | c :: l' =>
      if Ascii.eqb (upper_char c) "E" then
        let '(neg, body) := split_sign l' in
        match span_digits body with
        | (d :: ds, []) => Some (cond_Zopp neg (decimal (d :: ds)))
        | _ => None
        end
      else None
  end.

(** The unsigned part of a float literal: [inf], [infinity] or [nan] in any
    case, or digits with an optional point and an optional exponent. *)
Definition float_body (neg : bool) (l : list ascii) : option float :=
  let word := str (map lower_char l) in
  if bool_decide (word = "inf") || bool_decide (word = "infinity")
  then Some (S754_infinity neg)
  else if bool_decide (word = "nan") then Some S754_nan
  else
    let '(ip, r) := span_digits l in
    let '(fp, r) :=
      match r with
      | c :: r' => if Ascii.eqb c "." then span_digits r' else ([], r)
      | [] => ([], [])
      end in
    match ip ++ fp with
    | [] => None
    | ds =>
        match parse_exponent r with
        | Some x => Some (float_of_decimal neg (decimal ds) (x - Z.of_nat (length fp)))
        | None => None
        end
    end.

(** [float(s)] on a string.  (CPython ends the message of the exception with
    the text it was given.) *)
Definition float_of_str (s : string) : result float :=
  let invalid := Raise (ValueError "could not convert string to float") in
  let l := strip_chars (chars s) in
  if underscores_ok l then
    let '(neg, body) := split_sign (remove_underscores l) in
    match float_body neg body with
    | Some f => Ok f
    | None => invalid
    end
  else invalid.

(** [x * y] on floats. *)
Definition float_mul (x y : float) : float := SFmul prec emax x y.

(** [int(x)] on a float: truncation towards zero. *)
Definition int_of_float (x : float) : result Z :=
  match x with
  | S754_zero _ => Ok 0
  | S754_finite neg m e => Ok (cond_Zopp neg (Z.shiftl (Zpos m) e))
  | S754_infinity _ => Raise (OverflowError "cannot convert float infinity to integer")
  | S754_nan => Raise (ValueError "cannot convert float NaN to integer")
  end.

(** [a / b] on integers: the quotient, correctly rounded to binary64. *)
Definition int_truediv (a b : Z) : result float :=
  match a, b with
  | _, Z0 => Raise (ZeroDivisionError "division by zero")
  | Z0, Zpos _ => Ok (S754_zero false)
  | Z0, Zneg _ => Ok (S754_zero true)
  | Zpos n, Zpos d =>
      match float_of_ratio false n d with
      | S754_infinity _ =>
          Raise (OverflowError "integer division result too large for a float")
      | f => Ok f
      end
  | Zneg n, Zneg d =>
      match float_of_ratio false n d with
      | S754_infinity _ =>
          Raise (OverflowError "integer division result too large for a float")
      | f => Ok f
      end
  | Zpos n, Zneg d | Zneg n, Zpos d =>
      match float_of_ratio true n d with
      | S754_infinity _ =>
          Raise (OverflowError "integer division result too large for a float")
      | f => Ok f
      end
  end.

(** The first character, when it is a minus. *)
Definition leading_minus (l : list ascii) : bool :=
  match l with
  | c :: _ => Ascii.eqb c "-"
  | [] => false
  end.

(** The float is not negative ([neg = false]) or not positive ([neg = true]). *)
Definition has_sign (neg : bool) (f : float) : Prop :=
  match f with
  | S754_nan => True
  | S754_zero s | S754_infinity s | S754_finite s _ _ => s = neg
  end.

End Py.

(** ** Regular expressions of [re], as far as the program uses them

    A pattern is a sequence of character classes, each under a greedy
    quantifier.  [match_here] is the backtracking matcher of [re]: a quantifier
    first takes as many characters as it can and gives them back one by one
    while the rest of the pattern fails. *)

Module Re.

Inductive class : Type :=
| Digit                      (* \d *)
| OneOf (cs : string).       (* [...] *)

Inductive quantifier : Type :=
| Once                       (* x *)
| Opt                        (* x? *)
| Star                       (* x* *)
| Plus.                      (* x+ *)

Definition pattern : Type := list (class * quantifier).

Definition accepts (c : class) (a : ascii) : bool :=
  match c with
  | Digit => Py.is_digit a
  | OneOf cs => bool_decide (a ∈ Py.chars cs)
  end.

(** One character of the class, then the rest of the pattern. *)
Definition match_one (c : class) (rest : list ascii -> option (list ascii))
  (l : list ascii) : option (list ascii) :=
  match l with
  | a :: l' => if accepts c a then cons a <$> rest l' else None
  | [] => None
  end.

(** [x?]: with the character first, without it if that fails. *)
Definition match_opt (c : class) (rest : list ascii -> option (list ascii))
  (l : list ascii) : option (list ascii) :=
  match match_one c rest l with
  | Some m => Some m
  | None => rest l
  end.

(** [x*]: one more character first, the rest of the pattern if that fails. *)
Fixpoint match_star (c : class) (rest : list ascii -> option (list ascii))
  (l : list ascii) : option (list ascii) :=
  match l with
  | a :: l' =>
      if accepts c a then
        match match_star c rest l' with
        | Some m => Some (a :: m)
        | None => rest l
        end
      else rest l
  | [] => rest l
  end.

(** The text matched at the start of [l], if the pattern matches there. *)
Fixpoint match_here (p : pattern) : list ascii -> option (list ascii) :=
  match p with
  | [] => fun _ => Some []
  | (c, q) :: p' =>
      let rest := match_here p' in
      match q with
      | Once => match_one c rest
      | Opt => match_opt c rest
      | Star => match_star c rest
      | Plus => match_one c (match_star c rest)
      end
  end.

(** [re.search(p, l).group(0)]: the match at the first position that has one. *)
Fixpoint search (p : pattern) (l : list ascii) : option (list ascii) :=
  match match_here p l with
  | Some m => Some m
  | None =>
      match l with
      | _ :: l' => search p l'
      | [] => None
      end
  end.

(** The language of a pattern. *)
Inductive matches : pattern -> list ascii -> Prop :=
| matches_nil : matches [] []
| matches_once c p a m :
    accepts c a = true -> matches p m -> matches ((c, Once) :: p) (a :: m)
| matches_opt_skip c p m :
    matches p m -> matches ((c, Opt) :: p) m
| matches_opt_take c p a m :
    accepts c a = true -> matches p m -> matches ((c, Opt) :: p) (a :: m)
| matches_star_stop c p m :
    matches p m -> matches ((c, Star) :: p) m
| matches_star_step c p a m :
    accepts c a = true -> matches ((c, Star) :: p) m ->
    matches ((c, Star) :: p) (a :: m)
| matches_plus c p a m :
    accepts c a = true -> matches ((c, Star) :: p) m ->
    matches ((c, Plus) :: p) (a :: m).

(** A matcher returns only texts of the language that start the input. *)
Definition sound (f : list ascii -> option (list ascii)) (L : list ascii -> Prop) : Prop :=
  forall l m, f l = Some m -> L m /\ exists r, l = m ++ r.

(** A matcher finds a match wherever a text of the language starts the input. *)
Definition complete (f : list ascii -> option (list ascii)) (L : list ascii -> Prop) : Prop :=
  forall m r, L m -> is_Some (f (m ++ r)).

(** [t] occurs in [l] as a block of consecutive characters. *)
Definition substring (t l : list ascii) : Prop :=
  exists pre post, l = pre ++ t ++ post.

End Re.

(** ** SizeHintParser *)

(** The two exceptions the parser raises itself. *)
Definition not_found : exn :=
  ValueError "No numeric humanized expression found in string.".

Definition invalid_format : exn :=
  ValueError "Invalid humanized string format".

(** [multipliers = {'K': 10**3, 'M': 10**6, 'B': 10**9}], in the order of its
    items. *)
Definition multipliers : list (string * Z) :=
  [("K", 10 ^ 3); ("M", 10 ^ 6); ("B", 10 ^ 9)].

(** The loop over [multipliers.items()]: [Some] is the [return] of its body, [None]
    is falling out of the loop. *)
Fixpoint parse_suffix_loop (items : list (string * Z)) (humanized_string : string)
  : option (result Z) :=
  match items with
  | (suffix, multiplier) :: items' =>
      if Py.endswith (Py.upper humanized_string) suffix then
        Some (x ← Py.float_of_str (Py.drop_last humanized_string);
              y ← Py.float_of_int multiplier;
              Py.int_of_float (Py.float_mul x y))
      else parse_suffix_loop items' humanized_string
  | [] => None
  end.

Definition parse_humanized_string (humanized_string : string) : result Z :=
  let humanized_string := Py.upper (Py.strip humanized_string) in
  match parse_suffix_loop multipliers humanized_string with
  | Some r => r
  | None =>
      match Py.int_of_str humanized_string with
      | Raise (ValueError _) => Raise invalid_format
      | r => r
      end
  end.

(** [regex = r"[-+]?(?:\d*\.*\d+)[kKmMbB]"] *)
Definition regex : Re.pattern :=
  [(Re.OneOf "-+", Re.Opt); (Re.Digit, Re.Star); (Re.OneOf ".", Re.Star);
   (Re.Digit, Re.Plus); (Re.OneOf "kKmMbB", Re.Once)].

(** The token as the specification words it: an optional sign, digits with at
    most one decimal point, and a suffix K, M or B in either case. *)
Definition spec_pattern : Re.pattern :=
  [(Re.OneOf "-+", Re.Opt); (Re.Digit, Re.Star); (Re.OneOf ".", Re.Opt);
   (Re.Digit, Re.Plus); (Re.OneOf "kKmMbB", Re.Once)].

Definition detect_humanized_number (some_string : string) : result string :=
  match Re.search regex (Py.chars some_string) with
  | Some first_result => Ok (Py.str first_result)
  | None => Raise not_found
  end.

(** The token starts with a minus sign. *)
Definition starts_with_minus (token : string) : bool :=
  match token with
  | String c _ => Ascii.eqb c "-"
  | EmptyString => false
  end.

(** [parse_humanized_string(detect_humanized_number(text))], the size hint of a
    text as [sample_bz2] takes it. *)
Definition size_hint (text : string) : result Z :=
  detect_humanized_number text ≫= parse_humanized_string.

(** ** [pathlib.Path(p).stem], for POSIX paths *)

Module Path.

(** [p.split(sep)] *)
Fixpoint split (sep : ascii) (l : list ascii) : list (list ascii) :=
  match l with
  | [] => [[]]
  | c :: l' =>
      if Ascii.eqb c sep then [] :: split sep l'
      else
        match split sep l' with
        | part :: parts => (c :: part) :: parts
        | [] => [[c]]
        end
  end.

(** The components of a path: empty components and [.] are dropped. *)
Definition parts (l : list ascii) : list (list ascii) :=
  filter (fun part => part ≠ [] ∧ part ≠ ["."%char]) (split "/" l).

(** [Path(p).name]: the final component, or the empty string. *)
Definition name_chars (l : list ascii) : list ascii := List.last (parts l) [].

(** [name.rfind('.')]: the index of the last point, or [-1]. *)
Fixpoint rfind_dot (l : list ascii) : Z :=
  match l with
  | [] => -1
  | c :: l' =>
      let i := rfind_dot l' in
      if 0 <=? i then i + 1
      else if Ascii.eqb c "." then 0 else -1
  end.

(** [Path(p).stem]: the name without its last suffix; a leading or a final
    point starts no suffix. *)
Definition stem_chars (l : list ascii) : list ascii :=
  let name := name_chars l in
  let i := rfind_dot name in
  if (0 <? i) && (i <? Z.of_nat (length name) - 1)
  then take (Z.to_nat i) name
  else name.

Definition name (p : string) : string := Py.str (name_chars (Py.chars p)).
Definition stem (p : string) : string := Py.str (stem_chars (Py.chars p)).

End Path.

(** ** StreamSampler *)

Section StreamSampler.

(** The state of the generator of [random], and [Random._randbelow(n)] for a
    positive [n]. *)
Variable rng : Type.
Variable randbelow : Z -> rng -> Z * rng.

(** [bz2.BZ2File(file_path, "r")], iterated: the lines of the file. *)
Variable bz2_file : string -> result (list string).

(** [random.randrange(n)] *)
Definition randrange (n : Z) (g : rng) : result (Z * rng) :=
  if 0 <? n then Ok (randbelow n g)
  else Raise (ValueError "empty range for randrange()").

(** The loop [for aline in afile] of [sample_bz2]. *)
Fixpoint sample_loop (num : Z) (afile chosen_lines : list string) (g : rng)
  : result (list string * rng) :=
  match afile with
  | [] => Ok (chosen_lines, g)
  | aline :: afile' =>
      match randrange num g with
      | Raise e => Raise e
      | Ok (r, g') =>
          if r =? 0
          then sample_loop num afile' (chosen_lines ++ [aline]) g'
          else sample_loop num afile' chosen_lines g'
      end
  end.

(** [int(total_lines / num_lines)] *)
Definition stride (total_lines num_lines : Z) : result Z :=
  Py.int_truediv total_lines num_lines ≫= Py.int_of_float.

(** The body of [sample_bz2], for an integer [num_lines]; the returned list
    comes with the state in which the generator is left. *)
Definition sample_bz2 (file_path : string) (num_lines : Z) (g : rng)
  : result (list string * rng) :=
  total_lines ← size_hint file_path;
  afile ← bz2_file file_path;
  num ← stride total_lines num_lines;
  sample_loop num afile [] g.

(** The results of [n] successive calls of [randrange(num)] from [g], and the
    state of the generator after them. *)
Fixpoint draws (num : Z) (n : nat) (g : rng) : list Z :=
  match n with
  | O => []
  | S n' => (randbelow num g).1 :: draws num n' (randbelow num g).2
  end.

Fixpoint after_draws (num : Z) (n : nat) (g : rng) : rng :=
  match n with
  | O => g
  | S n' => after_draws num n' (randbelow num g).2
  end.

(** The lines whose draw is zero, in the order of the file. *)
Definition admitted (lines : list string) (ds : list Z) : list string :=
  (filter (fun p => p.2 = 0) (zip lines ds)).*1.

End StreamSampler.

Arguments randrange {rng} randbelow n g.
Arguments sample_loop {rng} randbelow num afile chosen_lines g.
Arguments sample_bz2 {rng} randbelow bz2_file file_path num_lines g.
Arguments draws {rng} randbelow num n g.
Arguments after_draws {rng} randbelow num n g.

(** ** MembershipFilter and FanOutCoordinator *)

(** What a run does to the world outside, in the order it does it. *)
Inductive event : Type :=
| PoolStarted (n_processes : Z)
| TaskDispatched (bloom_file : string)
| FileWritten (out_file : string) (document : gmap string (list string)).

(** The paths of the tasks of a trace, in the order of their dispatch. *)
Definition dispatched (trace : list event) : list string :=
  omap (fun ev => match ev with TaskDispatched f => Some f | _ => None end) trace.

(** The key reserved for the queries no filter matched. *)
Definition unmatched_key : string := "unmatched".

Section Filtering.

(** [molbloom.BloomFilter(path)] and [smile in bf]. *)
Variable filter_t : Type.
Variable BloomFilter : string -> result filter_t.
Variable contains : filter_t -> string -> bool.

(** [glob.glob(glob_exp)], and the lines of a text file opened for reading. *)
Variable glob : string -> list string.
Variable read_lines : string -> result (list string).

(** The loop [for smile in smiles_iterable] of [bloom_match]. *)
Fixpoint bloom_loop (bf : filter_t) (smiles_iterable results : list string)
  : list string :=
  match smiles_iterable with
  | [] => results
  | smile :: rest =>
      if contains bf smile
      then bloom_loop bf rest (results ++ [smile])
      else bloom_loop bf rest results
  end.

Definition bloom_match (bloom_file : string) (smiles_iterable : list string)
  : result (gmap string (list string)) :=
  bf ← BloomFilter bloom_file;
  let results := bloom_loop bf smiles_iterable [] in
  let base_name := Path.stem bloom_file in
  Ok {[ base_name := results ]}.

(** The queries a filter reports as members, in the order of the queries. *)
Definition members (bf : filter_t) (smiles : list string) : list string :=
  List.filter (contains bf) smiles.

(** What the task of a path returns when its structure loads. *)
Definition task_result (smiles : list string) (path : string)
  (r : gmap string (list string)) : Prop :=
  exists bf, BloomFilter path = Ok bf /\
             r = {[ Path.stem path := members bf smiles ]}.

(** [pool.map(partial_f, filter_files, chunksize=1)], taken sequentially: the
    results come in the order of the tasks, and the first task that raises, in
    that order, decides the exception. *)
Fixpoint pool_map {A B : Type} (f : A -> result B) (tasks : list A)
  : result (list B) :=
  match tasks with
  | [] => Ok []
  | t :: tasks' =>
      r ← f t;
      rs ← pool_map f tasks';
      Ok (r :: rs)
  end.

(** The loop [for result in results: results_dict.update(result)]. *)
Definition merge (results : list (gmap string (list string)))
  (results_dict : gmap string (list string)) : gmap string (list string) :=
  fold_left (fun d result => result ∪ d) results results_dict.

(** [matched]: the values of [results_dict] chained into one list; it is only
    tested for membership, so the order of the keys does not matter. *)
Definition chain_values (results_dict : gmap string (list string)) : list string :=
  concat (snd <$> map_to_list results_dict).

(** The block under [if include_unmatched]. *)
Definition add_unmatched (smiles : list string)
  (results_dict : gmap string (list string)) : gmap string (list string) :=
  let results_dict := <[unmatched_key := []]> results_dict in
  let matched := chain_values results_dict in
  fold_left
    (fun d smile =>
       if bool_decide (smile ∈ matched) then d
       else alter (fun l => l ++ [smile]) unmatched_key d)
    smiles results_dict.

(** The queries of [smiles] that are not in [matched], in their order. *)
Definition not_in (matched smiles : list string) : list string :=
  List.filter (fun smile => negb (bool_decide (smile ∈ matched))) smiles.

Definition no_filters_message (glob_exp : string) : string :=
  "No bloom filters found using the glob expression: " +:+ glob_exp.

(** [find_matches]: what it raises, if anything, and the trace of its effects. *)
Definition find_matches (glob_exp : string) (num_procs : Z)
  (smiles_file out_file : string) (include_unmatched : bool)
  : result unit * list event :=
  let filter_files := glob glob_exp in
  match filter_files with
  | [] => (Raise (ValueError (no_filters_message glob_exp)), [])
  | _ :: _ =>
      let n_processes :=
        if num_procs <? 1 then Z.of_nat (length filter_files) else num_procs in
      match read_lines smiles_file with
      | Raise e => (Raise e, [])
      | Ok in_file =>
          let smiles := map Py.strip in_file in
          let trace := PoolStarted n_processes :: map TaskDispatched filter_files in
          match pool_map (fun f => bloom_match f smiles) filter_files with
          | Raise e => (Raise e, trace)
          | Ok results =>
              let results_dict := merge results ∅ in
              let results_dict :=
                if include_unmatched then add_unmatched smiles results_dict
                else results_dict in
              (Ok tt, trace ++ [FileWritten out_file results_dict])
          end
      end
  end.

End Filtering.

Arguments bloom_loop {filter_t} contains bf smiles_iterable results.
Arguments members {filter_t} contains bf smiles.
Arguments task_result {filter_t} BloomFilter contains smiles path r.
Arguments bloom_match {filter_t} BloomFilter contains bloom_file smiles_iterable.
Arguments find_matches {filter_t} BloomFilter contains glob read_lines
  glob_exp num_procs smiles_file out_file include_unmatched.

(** *** The scenario of the specification: two filters, three queries *)

Module Scenario.

Definition filters : list (string * list string) :=
  [("filters/A.bloom", ["CCO"]); ("filters/B.bloom", ["CCN"])].

(** Two filters whose file name is the reserved key. *)
Definition collide : list (string * list string) :=
  [("x/unmatched.bloom", ["CCO"]); ("y/unmatched.bloom", ["CCN"])].

Definition queries : list string := ["CCO"; "CCN"; "CCC"].

Definition load (table : list (string * list string)) (path : string)
  : result (list string) :=
  match List.find (fun entry => bool_decide (entry.1 = path)) table with
  | Some entry => Ok entry.2
  | None => Raise (OSError "cannot open bloom filter")
  end.

Definition member (bf : list string) (smile : string) : bool :=
  bool_decide (smile ∈ bf).

Definition run (table : list (string * list string)) (queries : list string)
  (include_unmatched : bool) : result unit * list event :=
  find_matches (load table) member (fun _ => table.*1)
    (fun _ => Ok queries) "filters/*.bloom" (-1) "queries.smi" "results.json"
    include_unmatched.

(** A generator for the examples: the draws cycle through the residues. *)
Definition counter_randbelow (n : Z) (g : Z) : Z * Z := (g mod n, g + 1).

End Scenario.

(** * Proofs *)

(** ** Strings and characters *)

Lemma chars_str (l : list ascii) : Py.chars (Py.str l) = l.
Proof. apply list_ascii_of_string_of_list_ascii. Qed.

Lemma str_chars (s : string) : Py.str (Py.chars s) = s.
Proof. apply string_of_list_ascii_of_string. Qed.

(** ** The backtracking matcher and the language of a pattern *)

Module ReFacts.
Import Re.

Lemma match_one_sound c q p rest :
  (forall a m, accepts c a = true -> matches p m -> matches ((c, q) :: p) (a :: m)) ->
  sound rest (matches p) -> sound (match_one c rest) (matches ((c, q) :: p)).
Proof.
  intros Hstep Hrest [|a l] m; simpl; [done|].
  destruct (accepts c a) eqn:Ha; [|done].
  destruct (rest l) as [m'|] eqn:Hm; [|done].
  intros [= <-]. destruct (Hrest _ _ Hm) as [? [r ->]].
  split; [by apply Hstep|by exists r].
Qed.

Lemma match_star_sound c p rest :
  sound rest (matches p) -> sound (match_star c rest) (matches ((c, Star) :: p)).
Proof.
  intros Hrest l. induction l as [|a l IH]; intros m; simpl.
  - intros Hm. destruct (Hrest _ _ Hm) as [? ?]. split; [by constructor|done].
  - assert (Hstop : rest (a :: l) = Some m ->
                    matches ((c, Star) :: p) m /\ exists r, a :: l = m ++ r).
    { intros Hm. destruct (Hrest _ _ Hm) as [? ?]. split; [by constructor|done]. }
    destruct (accepts c a) eqn:Ha; [|done].
    destruct (match_star c rest l) as [m'|] eqn:Hm; [|done].
    intros [= <-]. destruct (IH _ eq_refl) as [? [r ->]].
    split; [by constructor|by exists r].
Qed.

Lemma match_here_sound p : sound (match_here p) (matches p).
Proof.
  induction p as [|[c q] p IH].
  - intros l m [= <-]. split; [constructor|by exists l].
  - destruct q; simpl.
    + apply match_one_sound; [by constructor|done].
    + intros l m. unfold match_opt.
      destruct (match_one c (match_here p) l) as [m'|] eqn:Hone.
      * intros [= <-]. revert Hone.
        apply (match_one_sound c Opt p); [by constructor|done].
      * intros Hm. destruct (IH _ _ Hm) as [? ?]. split; [by constructor|done].
    + by apply match_star_sound.
    + intros [|a l] m; simpl; [done|].
      destruct (accepts c a) eqn:Ha; [|done].
      destruct (match_star c (match_here p) l) as [m'|] eqn:Hm; [|done].
      intros [= <-]. destruct (match_star_sound c p _ IH _ _ Hm) as [? [r ->]].
      split; [by constructor|by exists r].
Qed.

Lemma match_star_stop c rest l :
  is_Some (rest l) -> is_Some (match_star c rest l).
Proof.
  intros Hl. destruct l as [|a l]; simpl; [done|].
  destruct (accepts c a); [|done].
  by destruct (match_star c rest l).
Qed.

Lemma match_here_complete p : complete (match_here p) (matches p).
Proof.
  intros m r Hm. revert r.
  induction Hm as [|c p a m Ha _ IH|c p m _ IH|c p a m Ha _ IH
                   |c p m _ IH|c p a m Ha _ IH|c p a m Ha _ IH]; intros r; simpl.
  - by eexists.
  - rewrite Ha. destruct (IH r) as [? ->]. by eexists.
  - unfold match_opt. destruct (match_one c (match_here p) (m ++ r)); [by eexists|].
    apply IH.
  - unfold match_opt; simpl. rewrite Ha. destruct (IH r) as [? ->]. by eexists.
  - apply match_star_stop, IH.
  - rewrite Ha. destruct (IH r) as [? Hm']. simpl in Hm'. rewrite Hm'. by eexists.
  - rewrite Ha. destruct (IH r) as [? Hm']. simpl in Hm'. rewrite Hm'. by eexists.
Qed.

Lemma search_sound p l m :
  search p l = Some m -> matches p m /\ substring m l.
Proof.
  induction l as [|a l IH]; simpl.
  - destruct (match_here p []) as [m'|] eqn:Hm; [|done].
    intros [= <-]. destruct (match_here_sound p _ _ Hm) as [? [r Hr]].
    split; [done|]. by exists [], r.
  - destruct (match_here p (a :: l)) as [m'|] eqn:Hm.
    + intros [= <-]. destruct (match_here_sound p _ _ Hm) as [? [r Hr]].
      split; [done|]. by exists [], r.
    + intros Hs. destruct (IH Hs) as [? (pre & post & ->)].
      split; [done|]. by exists (a :: pre), post.
Qed.

Lemma search_complete p l t :
  substring t l -> matches p t -> is_Some (search p l).
Proof.
  intros (pre & post & ->) Ht. induction pre as [|a pre IH]; simpl.
  - destruct (match_here_complete p t post Ht) as [m Hm].
    destruct (t ++ post); simpl in *; rewrite Hm; by eexists.
  - destruct (match_here p (a :: pre ++ t ++ post)); [by eexists|done].
Qed.

(** [re.search] fails exactly on the texts no part of which is in the language. *)
Lemma search_None p l :
  search p l = None <-> forall t, substring t l -> ~ matches p t.
Proof.
  split.
  - intros Hs t Hsub Ht. destruct (search_complete p l t Hsub Ht) as [m Hm]. congruence.
  - intros Hno. destruct (search p l) as [m|] eqn:Hs; [|done].
    destruct (search_sound _ _ _ Hs) as [? ?]. by destruct (Hno m).
Qed.

(** The shape of the texts under each quantifier. *)
Lemma matches_star_inv c p m :
  matches ((c, Star) :: p) m ->
  exists xs m', m = xs ++ m' /\ Forall (fun a => accepts c a = true) xs /\ matches p m'.
Proof.
  intros Hm. remember ((c, Star) :: p) as cp eqn:Hcp.
  induction Hm; simplify_eq.
  - by exists [], m.
  - destruct (IHHm eq_refl) as (xs & m' & -> & ? & ?).
    exists (a :: xs), m'. split; [done|]. split; [by constructor|done].
Qed.

Lemma matches_plus_inv c p m :
  matches ((c, Plus) :: p) m ->
  exists x xs m', m = (xs ++ [x]) ++ m' /\
    Forall (fun a => accepts c a = true) (xs ++ [x]) /\ matches p m'.
Proof.
  intros Hm. inversion Hm as [| | | | | |c' p' a m0 Ha Hstar]; simplify_eq.
  destruct (matches_star_inv _ _ _ Hstar) as (xs & m' & -> & Hxs & ?).
  destruct (exists_last (l := a :: xs)) as (ys & y & Hy); [done|].
  exists y, ys, m'. rewrite <- Hy. split; [done|]. split; [by constructor|done].
Qed.

Lemma matches_opt_inv c p m :
  matches ((c, Opt) :: p) m ->
  exists xs m', m = xs ++ m' /\ (xs = [] \/ exists a, xs = [a] /\ accepts c a = true) /\
    matches p m'.
Proof.
  intros Hm. inversion Hm as [| |c' p' m0 Hp|c' p' a m0 Ha Hp| | |]; simplify_eq.
  - exists [], m. eauto.
  - exists [a], m0. eauto 6.
Qed.

Lemma matches_once_inv c p m :
  matches ((c, Once) :: p) m ->
  exists a m', m = a :: m' /\ accepts c a = true /\ matches p m'.
Proof.
  intros Hm. inversion Hm as [|c' p' a m0 Ha Hp| | | | |]; simplify_eq. eauto.
Qed.

End ReFacts.

(** ** Signs through [float()], [*] and [int()] *)

Module PyFacts.
Import Py.

Ltac each_char a := destruct a as [[] [] [] [] [] [] [] []]; try done.

Lemma upper_char_space a : is_space (upper_char a) = is_space a.
Proof. each_char a. Qed.

Lemma upper_char_minus a : Ascii.eqb (upper_char a) "-" = Ascii.eqb a "-".
Proof. each_char a. Qed.

Lemma digit_value_nonneg a : is_digit a = true -> 0 <= digit_value a.
Proof. unfold is_digit, digit_value. lia. Qed.

Lemma lstrip_head l a r : lstrip l = a :: r -> is_space a = false.
Proof.
  induction l as [|c l IH]; simpl; [done|].
  destruct (is_space c) eqn:Hc; [done|]. by intros [= <- _].
Qed.

Lemma lstrip_nonspace a l : is_space a = false -> lstrip (a :: l) = a :: l.
Proof. intros Ha. simpl. by rewrite Ha. Qed.

Lemma lstrip_keeps x a z :
  is_space a = false -> exists y, lstrip (x ++ a :: z) = y ++ a :: z.
Proof.
  intros Ha. induction x as [|c x IH]; simpl.
  - rewrite Ha. by exists [].
  - destruct (is_space c); [done|]. by exists (c :: x).
Qed.

Lemma rstrip_cons a r :
  is_space a = false -> exists r', rstrip (a :: r) = a :: r'.
Proof.
  intros Ha. unfold rstrip. simpl.
  destruct (lstrip_keeps (rev r) a [] Ha) as [y ->].
  rewrite rev_app_distr. simpl. by eexists.
Qed.

Lemma strip_chars_cons a r :
  is_space a = false -> exists r', strip_chars (a :: r) = a :: r'.
Proof.
  intros Ha. unfold strip_chars. rewrite lstrip_nonspace by done.
  by apply rstrip_cons.
Qed.

(** Stripping keeps the first character that is no space. *)
Lemma strip_chars_head l :
  match lstrip l with
  | [] => strip_chars l = []
  | a :: _ => is_space a = false /\ exists r', strip_chars l = a :: r'
  end.
Proof.
  unfold strip_chars. destruct (lstrip l) as [|a r] eqn:Hl; [done|].
  pose proof (lstrip_head _ _ _ Hl) as Ha. split; [done|]. by apply rstrip_cons.
Qed.

Lemma span_digits_digits l ds r : span_digits l = (ds, r) -> Forall (fun c => is_digit c = true) ds.
Proof.
  revert ds r. induction l as [|c l IH]; intros ds r; simpl.
  - intros [= <- <-]. constructor.
  - destruct (is_digit c) eqn:Hc.
    + destruct (span_digits l) as [ds' r'] eqn:Hl. intros [= <- <-].
      constructor; [done|]. by eapply IH.
    + intros [= <- <-]. constructor.
Qed.

Lemma decimal_from_nonneg ds acc :
  Forall (fun c => is_digit c = true) ds -> 0 <= acc -> 0 <= decimal_from acc ds.
Proof.
  unfold decimal_from. intros Hds. revert acc.
  induction Hds as [|c ds Hc _ IH]; intros acc Hacc; simpl; [done|].
  apply IH. pose proof (digit_value_nonneg c Hc). lia.
Qed.

Lemma cond_Zopp_sign (neg : bool) (n : Z) :
  0 <= n -> if neg then cond_Zopp neg n <= 0 else 0 <= cond_Zopp neg n.
Proof. destruct neg; simpl; lia. Qed.

Lemma binary_round_aux_sign neg m e l :
  has_sign neg (binary_round_aux prec emax neg m e l).
Proof.
  unfold binary_round_aux.
  destruct (shr_fexp prec emax m e l) as [mrs e'].
  destruct (shr_fexp prec emax _ e' loc_Exact) as [mrs' e''].
  destruct (shr_m mrs'); simpl; [done| |done].
  by destruct (Z.leb _ _).
Qed.

Lemma float_of_decimal_sign neg m x : has_sign neg (float_of_decimal neg m x).
Proof.
  unfold float_of_decimal. destruct m as [|p|p]; simpl; [done| |done].
  destruct (0 <=? x).
  - unfold binary_round. destruct (shl_align _ _ _). apply binary_round_aux_sign.
  - unfold float_of_ratio. destruct (SFdiv_core_binary _ _ _ _ _ _) as [[q e] l].
    apply binary_round_aux_sign.
Qed.

Lemma float_body_sign neg l f : float_body neg l = Some f -> has_sign neg f.
Proof.
  unfold float_body.
  destruct (_ || _); [by intros [= <-]|].
  destruct (bool_decide _); [by intros [= <-]|].
  destruct (span_digits l) as [ip r].
  destruct (match r with [] => _ | _ => _ end) as [fp r'].
  destruct (ip ++ fp); [done|].
  destruct (parse_exponent r'); [|done].
  intros [= <-]. apply float_of_decimal_sign.
Qed.

Lemma underscores_ok_head a l : underscores_ok (a :: l) = true -> a <> "_"%char.
Proof. unfold underscores_ok. simpl. intros H ->. done. Qed.

Lemma split_sign_head a l :
  split_sign (a :: l) = (Ascii.eqb a "-", (split_sign (a :: l)).2).
Proof. simpl. destruct (Ascii.eqb a "-"); [done|]. by destruct (Ascii.eqb a "+"). Qed.

(** [float(s)] has the sign its literal starts with. *)
Lemma float_of_str_sign s f :
  float_of_str s = Ok f -> has_sign (leading_minus (lstrip (chars s))) f.
Proof.
  unfold float_of_str. pose proof (strip_chars_head (chars s)) as Hs.
  destruct (lstrip (chars s)) as [|a r].
  - rewrite Hs. done.
  - destruct Hs as [Ha [r' ->]].
    destruct (underscores_ok (a :: r')) eqn:Hu; [|done].
    apply underscores_ok_head in Hu.
    unfold remove_underscores. rewrite filter_cons_True by done.
    rewrite split_sign_head. simpl leading_minus.
    destruct (float_body _ _) as [f'|] eqn:Hf; [|done].
    intros [= <-]. by apply float_body_sign in Hf.
Qed.

Lemma float_mul_sign neg x m e :
  has_sign neg x -> has_sign neg (float_mul x (S754_finite false m e)).
Proof.
  unfold float_mul. destruct x as [s|s| |s mx ex]; simpl; try done.
  - intros ->. by destruct neg.
  - intros ->. by destruct neg.
  - intros ->. rewrite xorb_false_r. apply binary_round_aux_sign.
Qed.

Lemma int_of_float_sign (neg : bool) (x : float) (n : Z) :
  has_sign neg x -> int_of_float x = Ok n -> if neg then n <= 0 else 0 <= n.
Proof.
  destruct x as [s|s| |s m e]; simpl; try done.
  - intros _ [= <-]. by destruct neg.
  - intros -> [= <-]. apply cond_Zopp_sign. by apply Z.shiftl_nonneg.
Qed.

(** [int(s)] has the sign its literal starts with. *)
Lemma int_of_str_sign s n :
  int_of_str s = Ok n ->
  if leading_minus (lstrip (chars s)) then n <= 0 else 0 <= n.
Proof.
  unfold int_of_str. pose proof (strip_chars_head (chars s)) as Hs.
  destruct (lstrip (chars s)) as [|a r].
  - rewrite Hs. done.
  - destruct Hs as [Ha [r' ->]].
    rewrite split_sign_head. simpl leading_minus.
    destruct (underscores_ok _); [|done].
    destruct (span_digits _) as [[|d ds] [|? ?]] eqn:Hd; try done.
    intros [= <-]. apply cond_Zopp_sign.
    apply decimal_from_nonneg; [|done]. by eapply span_digits_digits.
Qed.

End PyFacts.

(** ** SizeHintParser *)

Section SizeHintParser.
Import Re ReFacts Py PyFacts.

(** The texts of the detector's pattern: a sign or none, digits, points, at
    least one digit, and the suffix. *)
Lemma regex_shape m :
  matches regex m ->
  exists sg ip dots fp d c,
    m = sg ++ ip ++ dots ++ (fp ++ [d]) ++ [c] /\
    (sg = [] \/ exists a, sg = [a] /\ accepts (OneOf "-+") a = true) /\
    Forall (fun a => accepts Digit a = true) ip /\
    Forall (fun a => accepts (OneOf ".") a = true) dots /\
    Forall (fun a => accepts Digit a = true) (fp ++ [d]) /\
    accepts (OneOf "kKmMbB") c = true.
Proof.
  unfold regex. intros Hm.
  apply matches_opt_inv in Hm as (sg & m1 & -> & Hsg & Hm).
  apply matches_star_inv in Hm as (ip & m2 & -> & Hip & Hm).
  apply matches_star_inv in Hm as (dots & m3 & -> & Hdots & Hm).
  apply matches_plus_inv in Hm as (d & fp & m4 & -> & Hfp & Hm).
  apply matches_once_inv in Hm as (c & m5 & -> & Hc & Hm).
  inversion Hm; subst. by exists sg, ip, dots, fp, d, c.
Qed.

Lemma sign_not_space a : accepts (OneOf "-+") a = true -> is_space a = false.
Proof. each_char a. Qed.

Lemma digit_not_space a : accepts Digit a = true -> is_space a = false.
Proof. each_char a. Qed.

Lemma point_not_space a : accepts (OneOf ".") a = true -> is_space a = false.
Proof. each_char a. Qed.

Lemma suffix_not_space a : accepts (OneOf "kKmMbB") a = true -> is_space a = false.
Proof. each_char a. Qed.

(** A detected token starts with a character that [strip] keeps. *)
Lemma regex_lstrip m : matches regex m -> lstrip m = m.
Proof.
  intros Hm. destruct (regex_shape m Hm) as (sg & ip & dots & fp & d & c & -> & Hsg & Hip & Hdots & Hfp & Hc).
  assert (Hall : Forall (fun a => is_space a = false)
                   (sg ++ ip ++ dots ++ (fp ++ [d]) ++ [c])).
  { apply Forall_app in Hfp as [Hfp Hd]. repeat apply Forall_app_2.
    - destruct Hsg as [->|(a & -> & Ha)]; [constructor|].
      constructor; [by apply sign_not_space|constructor].
    - eapply Forall_impl; [exact Hip|]. apply digit_not_space.
    - eapply Forall_impl; [exact Hdots|]. apply point_not_space.
    - eapply Forall_impl; [exact Hfp|]. apply digit_not_space.
    - eapply Forall_impl; [exact Hd|]. apply digit_not_space.
    - constructor; [by apply suffix_not_space|constructor]. }
  destruct Hall as [|a r Ha _]; [done|]. by apply lstrip_nonspace.
Qed.

(** The last digit of a detected token and its suffix are a token in the
    words of the specification. *)
Lemma regex_has_spec_token m :
  matches regex m -> exists t, substring t m /\ matches spec_pattern t.
Proof.
  intros Hm. destruct (regex_shape m Hm) as (sg & ip & dots & fp & d & c & -> & _ & _ & _ & Hfp & Hc).
  exists [d; c]. split.
  - exists (sg ++ ip ++ dots ++ fp), []. by rewrite <- !app_assoc.
  - apply Forall_app in Hfp as [_ Hd]. inversion Hd; subst.
    unfold spec_pattern.
    apply matches_opt_skip, matches_star_stop, matches_opt_skip.
    apply matches_plus; [done|]. apply matches_star_stop.
    apply matches_once; [done|]. constructor.
Qed.

Lemma substring_trans t m l : substring t m -> substring m l -> substring t l.
Proof.
  intros (p1 & q1 & ->) (p2 & q2 & ->).
  exists (p2 ++ p1), (q1 ++ q2). by rewrite <- !app_assoc.
Qed.

Lemma detect_humanized_number_Ok text token :
  detect_humanized_number text = Ok token ->
  exists m, token = str m /\ matches regex m /\ substring m (chars text).
Proof.
  unfold detect_humanized_number.
  destruct (search regex (chars text)) as [m|] eqn:Hs; [|done].
  intros [= <-]. destruct (search_sound _ _ _ Hs). by exists m.
Qed.

(** The conversion of the suffixed form: the loop returns in one of its three
    rounds, each with a positive multiplier. *)
Lemma parse_suffix_loop_Some h r :
  parse_suffix_loop multipliers h = Some r ->
  exists m e,
    r = (x ← float_of_str (drop_last h);
         int_of_float (float_mul x (S754_finite false m e))).
Proof.
  unfold multipliers. simpl.
  repeat (destruct (endswith _ _);
          [intros [= <-]; eexists _, _; destruct (float_of_str _); reflexivity|]).
  done.
Qed.

Lemma upper_strip_head t :
  lstrip (chars (upper (strip t))) = chars (upper (strip t)) /\
  leading_minus (chars (upper (strip t))) = leading_minus (lstrip (chars t)).
Proof.
  unfold upper, strip. rewrite !chars_str.
  pose proof (strip_chars_head (chars t)) as Hs.
  destruct (lstrip (chars t)) as [|a r].
  - by rewrite Hs.
  - destruct Hs as [Ha [r' ->]]. simpl.
    rewrite upper_char_space, Ha. split; [done|]. apply upper_char_minus.
Qed.

Lemma drop_last_sign h f :
  lstrip (chars h) = chars h ->
  float_of_str (drop_last h) = Ok f -> has_sign (leading_minus (chars h)) f.
Proof.
  unfold drop_last. intros Hh Hf. pose proof (float_of_str_sign _ _ Hf) as Hs.
  rewrite chars_str in Hs.
  destruct (chars h) as [|a [|b r]] eqn:Hc; [done..|].
  apply lstrip_head in Hh. revert Hs. simpl. by rewrite Hh.
Qed.

(** The converted value has the sign the text starts with. *)
Lemma parse_humanized_string_sign t n :
  parse_humanized_string t = Ok n ->
  if leading_minus (lstrip (chars t)) then n <= 0 else 0 <= n.
Proof.
  unfold parse_humanized_string.
  destruct (upper_strip_head t) as [Hl <-].
  destruct (parse_suffix_loop _ _) as [r|] eqn:Hr.
  - apply parse_suffix_loop_Some in Hr as (m & e & ->).
    destruct (float_of_str _) as [x|] eqn:Hx; [|done]. simpl.
    apply int_of_float_sign, float_mul_sign. by apply drop_last_sign.
  - intros Hn. rewrite <- Hl. apply int_of_str_sign.
    destruct (int_of_str _) as [n'|[]]; by simplify_eq.
Qed.

Lemma starts_with_minus_chars token :
  starts_with_minus token = leading_minus (chars token).
Proof. by destruct token. Qed.

End SizeHintParser.

(** ** The claims on the size hint *)

(** C3, as amended.  The suffixed tokens "128K", "5M" and "2B" are detected and
    converted to 128000, 5000000 and 2000000000.  The bare integer "42" is
    converted to 42 by the numeric conversion alone: the detector asks for a
    suffix, and fails on it with the not-found error. *)
Theorem humanized_tokens_convert :
  size_hint "128K" = Ok 128000 /\
  size_hint "5M" = Ok 5000000 /\
  size_hint "2B" = Ok 2000000000 /\
  parse_humanized_string "42" = Ok 42 /\
  detect_humanized_number "42" = Raise not_found.
Proof. repeat split; by vm_compute. Qed.

(** C3 as stated fails on "42": extraction followed by conversion does not
    yield 42, it raises. *)
Lemma bare_integer_not_detected :
  size_hint "42" = Raise not_found /\ size_hint "42" <> Ok 42.
Proof. split; by vm_compute. Qed.

(** C4 as stated fails: on "-5K" extraction and conversion both succeed, and
    the size hint is negative. *)
Lemma negative_size_hint :
  detect_humanized_number "-5K" = Ok "-5K" /\
  parse_humanized_string "-5K" = Ok (-5000) /\
  size_hint "-5K" = Ok (-5000) /\
  -5000 < 0.
Proof. repeat split; by vm_compute. Qed.

(** C4, as amended.  Whenever extraction and numeric conversion both succeed,
    the size hint is an integer that carries the sign of the detected token:
    it is at least 0 unless the token starts with a minus sign, and at most 0
    when it does. *)
Theorem size_hint_sign (text token : string) (n : Z) :
  detect_humanized_number text = Ok token ->
  parse_humanized_string token = Ok n ->
  if starts_with_minus token then n <= 0 else 0 <= n.
Proof.
  intros Hd Hp. apply detect_humanized_number_Ok in Hd as (m & -> & Hm & _).
  apply parse_humanized_string_sign in Hp.
  rewrite starts_with_minus_chars. rewrite chars_str in *.
  by rewrite (regex_lstrip m Hm) in Hp.
Qed.

(** The size hint of the corpus named in the source. *)
Lemma size_hint_sign_witness :
  detect_humanized_number "Enamine_REAL_HAC_11_21_666M_CXSMILES.cxsmiles.bz2" = Ok "666M" /\
  parse_humanized_string "666M" = Ok 666000000 /\
  0 <= 666000000.
Proof.
  assert (Hd : detect_humanized_number
                 "Enamine_REAL_HAC_11_21_666M_CXSMILES.cxsmiles.bz2" = Ok "666M")
    by (vm_compute; reflexivity).
  assert (Hp : parse_humanized_string "666M" = Ok 666000000)
    by (vm_compute; reflexivity).
  split; [exact Hd|]. split; [exact Hp|].
  exact (size_hint_sign _ _ _ Hd Hp).
Defined.

(** C5.  On a text no part of which is a token in the words of the
    specification (an optional sign, digits with at most one decimal point, a
    suffix K, M or B in either case), the detector raises the not-found error
    and returns nothing. *)
Theorem detect_without_token_not_found (text : string) :
  (forall t, Re.substring t (Py.chars text) -> ~ Re.matches spec_pattern t) ->
  detect_humanized_number text = Raise not_found.
Proof.
  intros Hno. unfold detect_humanized_number.
  destruct (Re.search regex (Py.chars text)) as [m|] eqn:Hs; [|done].
  apply ReFacts.search_sound in Hs as [Hm Hsub].
  destruct (regex_has_spec_token m Hm) as (t & Ht & Hspec).
  destruct (Hno t); [|done]. by eapply substring_trans.
Qed.

(** A file name with digits and no suffixed number. *)
Lemma detect_without_token_not_found_witness :
  (forall t, Re.substring t (Py.chars "corpus_42.cxsmiles.bz2") ->
             ~ Re.matches spec_pattern t) /\
  detect_humanized_number "corpus_42.cxsmiles.bz2" = Raise not_found.
Proof.
  assert (Hno : forall t, Re.substring t (Py.chars "corpus_42.cxsmiles.bz2") ->
                          ~ Re.matches spec_pattern t)
    by (apply ReFacts.search_None; vm_compute; reflexivity).
  split; [exact Hno|].
  exact (detect_without_token_not_found _ Hno).
Defined.

(** C10.  On a text that holds "1..5M" the detector succeeds, since its pattern
    lets any number of points stand before the last digits, and the numeric
    conversion of the detected token fails in [float()]: the exception is
    neither the not-found error nor the format error. *)
Theorem detected_token_not_convertible :
  exists text token e,
    text = "sample_1..5M.bz2" /\
    Re.matches regex (Py.chars token) /\
    detect_humanized_number text = Ok token /\
    parse_humanized_string token = Raise e /\
    size_hint text = Raise e /\
    e <> not_found /\ e <> invalid_format.
Proof.
  exists "sample_1..5M.bz2", "1..5M", (ValueError "could not convert string to float").
  split; [done|]. split.
  - apply (ReFacts.match_here_sound regex (Py.chars "1..5M")). by vm_compute.
  - repeat split; by vm_compute.
Qed.

(** ** StreamSampler *)

Section StreamSamplerFacts.

Context {rng : Type} (randbelow : Z -> rng -> Z * rng).
Context (bz2_file : string -> result (list string)).

(** What [random] promises of [randrange(n)]: a value of [range(n)]. *)
Hypothesis randbelow_range :
  forall n g, 0 < n -> 0 <= (randbelow n g).1 < n.

Lemma admitted_cons aline lines d ds :
  admitted (aline :: lines) (d :: ds) =
  if d =? 0 then aline :: admitted lines ds else admitted lines ds.
Proof.
  unfold admitted. simpl. rewrite filter_cons. simpl.
  destruct (Z.eqb_spec d 0); by case_decide.
Qed.

Lemma admitted_sublist lines ds : admitted lines ds `sublist_of` lines.
Proof.
  revert ds. induction lines as [|aline lines IH]; intros [|d ds];
    try apply sublist_nil_l.
  rewrite admitted_cons. destruct (d =? 0).
  - by apply sublist_skip.
  - by apply sublist_cons.
Qed.

(** With a positive stride the loop never raises: it appends to
    [chosen_lines] the lines drawn zero. *)
Lemma sample_loop_admitted num afile chosen_lines g :
  0 < num ->
  sample_loop randbelow num afile chosen_lines g =
  Ok (chosen_lines ++ admitted afile (draws randbelow num (length afile) g),
      after_draws randbelow num (length afile) g).
Proof.
  intros Hnum. revert chosen_lines g.
  induction afile as [|aline afile IH]; intros chosen_lines g; simpl.
  - by rewrite app_nil_r.
  - unfold randrange. destruct (Z.ltb_spec 0 num); [|lia].
    rewrite admitted_cons. destruct (randbelow num g) as [r g']. simpl.
    destruct (r =? 0); rewrite IH; [|done]. by rewrite <- app_assoc.
Qed.

(** Without one it raises at the first line. *)
Lemma sample_loop_empty_range num aline afile chosen_lines g :
  num <= 0 ->
  sample_loop randbelow num (aline :: afile) chosen_lines g =
  Raise (ValueError "empty range for randrange()").
Proof.
  intros Hnum. simpl. unfold randrange. by destruct (Z.ltb_spec 0 num); [lia|].
Qed.

Lemma draws_length num n g : length (draws randbelow num n g) = n.
Proof. revert g. induction n as [|n IH]; intros g; simpl; [done|]. by rewrite IH. Qed.

Lemma draws_range num n g :
  0 < num -> Forall (fun d => 0 <= d < num) (draws randbelow num n g).
Proof.
  intros Hnum. revert g. induction n as [|n IH]; intros g; simpl; constructor.
  - by apply randbelow_range.
  - apply IH.
Qed.

(** C2.  When the stride [num] of a run is at least 1, [sample_bz2] returns
    the lines of the file whose draw is 0, each draw being the result of one
    call of [randrange(num)], a value of [0 .. num - 1], made for that line
    in the order of the file.  The returned lines are a subsequence of the
    file in its order, and there are at most as many as the file has. *)
Theorem sample_bz2_subsequence file_path num_lines total_lines num lines g :
  size_hint file_path = Ok total_lines ->
  bz2_file file_path = Ok lines ->
  stride total_lines num_lines = Ok num ->
  1 <= num ->
  let ds := draws randbelow num (length lines) g in
  sample_bz2 randbelow bz2_file file_path num_lines g =
    Ok (admitted lines ds, after_draws randbelow num (length lines) g) /\
  length ds = length lines /\
  Forall (fun d => 0 <= d < num) ds /\
  admitted lines ds `sublist_of` lines /\
  (length (admitted lines ds) <= length lines)%nat.
Proof.
  intros Hhint Hfile Hstride Hnum ds. unfold sample_bz2.
  rewrite Hhint. simpl. rewrite Hfile. simpl. rewrite Hstride. simpl.
  rewrite sample_loop_admitted by lia.
  split; [done|]. split; [apply draws_length|].
  split; [apply draws_range; lia|].
  split; [apply admitted_sublist|].
  apply sublist_length, admitted_sublist.
Qed.

End StreamSamplerFacts.

(** Seven lines at stride 3, with draws 0, 1, 2, 0, 1, 2, 0. *)
Lemma sample_bz2_subsequence_witness :
  sample_bz2 Scenario.counter_randbelow
    (fun _ => Ok ["C"; "CC"; "CCC"; "CCO"; "CCN"; "CO"; "CN"])
    "REAL_6K.cxsmiles.bz2" 2000 0 = Ok (["C"; "CCO"; "CN"], 7).
Proof.
  pose proof (sample_bz2_subsequence Scenario.counter_randbelow
    (fun _ => Ok ["C"; "CC"; "CCC"; "CCO"; "CCN"; "CO"; "CN"])
    (fun n g Hn => Z.mod_pos_bound g n Hn)
    "REAL_6K.cxsmiles.bz2" 2000 6000 3
    ["C"; "CC"; "CCC"; "CCO"; "CCN"; "CO"; "CN"] 0
    eq_refl eq_refl eq_refl ltac:(lia)) as [H _].
  exact H.
Defined.

(** C1 fails on the code.  With a size hint of 1000 lines and 2000 lines asked
    for, the stride is [int(0.5) = 0], and [randrange(0)] raises at the first
    line of the file, whatever the generator: nothing is returned. *)
Theorem sample_bz2_empty_range (rng : Type) (randbelow : Z -> rng -> Z * rng) (g : rng) :
  size_hint "Enamine_REAL_1K.cxsmiles.bz2" = Ok 1000 /\
  stride 1000 2000 = Ok 0 /\
  sample_bz2 randbelow (fun _ => Ok ["CCO"; "CCN"])
    "Enamine_REAL_1K.cxsmiles.bz2" 2000 g =
  Raise (ValueError "empty range for randrange()").
Proof. repeat split; by vm_compute. Qed.

(** ** Paths *)

Module PathFacts.
Import Path.

Lemma chars_app (s1 s2 : string) : Py.chars (s1 +:+ s2) = Py.chars s1 ++ Py.chars s2.
Proof. induction s1 as [|a s1 IH]; simpl; [done|]. by rewrite <- IH. Qed.

Lemma split_nonempty sep l : split sep l <> [].
Proof.
  destruct l as [|c l]; simpl; [done|].
  destruct (Ascii.eqb c sep); [done|]. by destruct (split sep l).
Qed.

Lemma split_no_sep sep l : sep ∉ l -> split sep l = [l].
Proof.
  induction l as [|c l IH]; simpl; [done|].
  intros Hsep. apply not_elem_of_cons in Hsep as [Hc Hl].
  destruct (Ascii.eqb_spec c sep); [congruence|]. by rewrite IH.
Qed.

Lemma split_app_sep sep x y : split sep (x ++ sep :: y) = split sep x ++ split sep y.
Proof.
  induction x as [|c x IH]; simpl.
  - by rewrite Ascii.eqb_refl.
  - destruct (Ascii.eqb c sep); [by rewrite IH|].
    rewrite IH. pose proof (split_nonempty sep x). by destruct (split sep x).
Qed.

Lemma rfind_dot_none l : "."%char ∉ l -> rfind_dot l = -1.
Proof.
  induction l as [|c l IH]; simpl; [done|].
  intros Hdot. apply not_elem_of_cons in Hdot as [Hc Hl]. rewrite IH by done.
  simpl. by destruct (Ascii.eqb_spec c "."); [congruence|].
Qed.

Lemma rfind_dot_last b e :
  "."%char ∉ e -> rfind_dot (b ++ "."%char :: e) = Z.of_nat (length b).
Proof.
  intros He. induction b as [|c b IH]; simpl.
  - by rewrite rfind_dot_none.
  - rewrite IH. destruct (0 <=? Z.of_nat (length b)) eqn:Hb; lia.
Qed.

(** The name of a path is what follows its last slash. *)
Lemma name_chars_last_component dir name :
  name <> [] -> name <> ["."%char] -> "/"%char ∉ name ->
  name_chars (dir ++ "/"%char :: name) = name /\ name_chars name = name.
Proof.
  intros Hne Hdot Hsep. unfold name_chars, parts.
  rewrite split_app_sep, (split_no_sep _ name) by done.
  rewrite filter_app, filter_cons_True, filter_nil by done.
  split; [|done]. by rewrite List.last_last.
Qed.

(** The stem of a name [base.ext], where [ext] holds no point. *)
Lemma stem_of_name base ext :
  base <> [] -> ext <> [] -> "."%char ∉ ext ->
  let name := base ++ "."%char :: ext in
  (if (0 <? rfind_dot name) && (rfind_dot name <? Z.of_nat (length name) - 1)
   then take (Z.to_nat (rfind_dot name)) name else name) = base.
Proof.
  intros Hb He Hdot name. unfold name. rewrite rfind_dot_last by done.
  assert (0 < length base)%nat by (destruct base; simpl; [done|lia]).
  assert (0 < length ext)%nat by (destruct ext; simpl; [done|lia]).
  rewrite length_app, length_cons.
  assert (Hc : (0 <? Z.of_nat (length base)) &&
               (Z.of_nat (length base) <? Z.of_nat (length base + S (length ext)) - 1)
               = true).
  { apply andb_true_intro. split; apply Z.ltb_lt; lia. }
  rewrite Hc, Nat2Z.id. apply take_app_length.
Qed.

(** The stem of [dir/base.ext] and of [base.ext] is [base]: the base name
    without its extension. *)
Lemma stem_base_name (dir base ext : string) :
  base <> "" -> ext <> "" ->
  "/"%char ∉ Py.chars base -> "/"%char ∉ Py.chars ext -> "."%char ∉ Py.chars ext ->
  stem (dir +:+ "/" +:+ base +:+ "." +:+ ext) = base /\
  stem (base +:+ "." +:+ ext) = base.
Proof.
  intros Hb He Hsb Hse Hde. unfold stem, stem_chars.
  rewrite !chars_app. change (Py.chars "/") with ["/"%char].
  change (Py.chars ".") with ["."%char]. simpl.
  assert (Hb' : Py.chars base <> []) by (by destruct base).
  assert (He' : Py.chars ext <> []) by (by destruct ext).
  destruct (name_chars_last_component (Py.chars dir)
              (Py.chars base ++ "."%char :: Py.chars ext)) as [-> ->].
  - by destruct (Py.chars base).
  - destruct (Py.chars base) as [|? [|? ?]]; [done| |done].
    by destruct (Py.chars ext).
  - rewrite not_elem_of_app, not_elem_of_cons. done.
  - rewrite stem_of_name by done. by rewrite str_chars.
Qed.

End PathFacts.

(** ** MembershipFilter and FanOutCoordinator *)

Section FilteringFacts.

Context {filter_t : Type}.
Context (BloomFilter : string -> result filter_t).
Context (contains : filter_t -> string -> bool).
Context (glob : string -> list string).
Context (read_lines : string -> result (list string)).

Lemma members_sublist bf smiles : members contains bf smiles `sublist_of` smiles.
Proof.
  unfold members. induction smiles as [|smile smiles IH]; simpl; [done|].
  destruct (contains bf smile); by constructor.
Qed.

Lemma elem_of_members bf smiles q :
  q ∈ members contains bf smiles <-> q ∈ smiles /\ contains bf q = true.
Proof. unfold members. rewrite !list_elem_of_In. apply filter_In. Qed.

Lemma bloom_loop_members bf smiles results :
  bloom_loop contains bf smiles results = results ++ members contains bf smiles.
Proof.
  revert results. induction smiles as [|smile smiles IH]; intros results; simpl.
  - by rewrite app_nil_r.
  - unfold members. simpl. destruct (contains bf smile); rewrite IH; [|done].
    by rewrite <- app_assoc.
Qed.

Lemma bloom_match_Ok bloom_file smiles bf :
  BloomFilter bloom_file = Ok bf ->
  bloom_match BloomFilter contains bloom_file smiles = Ok {[ Path.stem bloom_file := members contains bf smiles ]}.
Proof.
  intros Hbf. unfold bloom_match. rewrite Hbf. simpl.
  by rewrite bloom_loop_members.
Qed.

(** C6.  For a structure that loads, [bloom_match] returns one entry.  Its
    key is the stem of the path, which for a path [dir/base.ext] or
    [base.ext] is [base], the base name without its extension.  Its value is
    the sequence of the queries the structure reports as members: a
    subsequence of the queries in their order, each query as often as it
    occurs, and no other. *)
Theorem bloom_match_members (bloom_file : string) (smiles : list string) (bf : filter_t) :
  BloomFilter bloom_file = Ok bf ->
  bloom_match BloomFilter contains bloom_file smiles = Ok {[ Path.stem bloom_file := members contains bf smiles ]} /\
  members contains bf smiles = List.filter (contains bf) smiles /\
  members contains bf smiles `sublist_of` smiles /\
  (forall q, q ∈ members contains bf smiles <-> q ∈ smiles /\ contains bf q = true) /\
  (forall dir base ext : string,
      base <> "" -> ext <> "" ->
      "/"%char ∉ Py.chars base -> "/"%char ∉ Py.chars ext ->
      "."%char ∉ Py.chars ext ->
      bloom_file = dir +:+ "/" +:+ base +:+ "." +:+ ext \/
      bloom_file = base +:+ "." +:+ ext ->
      Path.stem bloom_file = base).
Proof.
  intros Hbf. split; [by apply bloom_match_Ok|]. split; [done|].
  split; [apply members_sublist|]. split; [apply elem_of_members|].
  intros dir base ext Hb He Hsb Hse Hde Hfile.
  destruct (PathFacts.stem_base_name dir base ext Hb He Hsb Hse Hde) as [H1 H2].
  by destruct Hfile as [-> | ->].
Qed.

(** C8.  When the glob pattern expands to no file, [find_matches] raises the
    exception of its guard and leaves no trace: no pool was started, no
    task dispatched, no file written. *)
Theorem find_matches_no_filters
  (glob_exp : string) (num_procs : Z) (smiles_file out_file : string)
  (include_unmatched : bool) :
  glob glob_exp = [] ->
  find_matches BloomFilter contains glob read_lines glob_exp num_procs smiles_file out_file include_unmatched =
  (Raise (ValueError (no_filters_message glob_exp)), []).
Proof. intros Hglob. unfold find_matches. by rewrite Hglob. Qed.

(** *** The merge of the results of the tasks *)

Lemma pool_map_bloom smiles files results :
  pool_map (fun f => bloom_match BloomFilter contains f smiles) files = Ok results ->
  Forall2 (task_result BloomFilter contains smiles) files results.
Proof.
  revert results. induction files as [|path files IH]; intros results; simpl.
  - intros [= <-]. constructor.
  - destruct (BloomFilter path) as [bf|] eqn:Hbf.
    + rewrite (bloom_match_Ok _ _ _ Hbf). simpl.
      destruct (pool_map _ files) as [rs|]; [|done]. simpl.
      intros [= <-]. constructor; [by exists bf|by apply IH].
    + unfold bloom_match. rewrite Hbf. done.
Qed.

Lemma merge_lookup_absent (rs : list (gmap string (list string))) d k :
  Forall (fun r => r !! k = None) rs -> merge rs d !! k = d !! k.
Proof.
  intros Hrs. revert d. induction Hrs as [|r rs Hr _ IH]; intros d; simpl; [done|].
  unfold merge in IH. rewrite IH. by apply lookup_union_r.
Qed.

Lemma merge_values (Q : list string -> Prop) smiles files results d k v :
  Forall2 (task_result BloomFilter contains smiles) files results ->
  (forall bf, Q (members contains bf smiles)) ->
  (forall k' v', d !! k' = Some v' -> Q v') ->
  merge results d !! k = Some v -> Q v.
Proof.
  intros Hres HQ. revert d.
  induction Hres as [|path r files rs (bf & _ & ->) _ IH]; intros d Hd; simpl.
  - apply Hd.
  - apply IH. intros k' v' [Hv|[_ Hv]]%lookup_union_Some_raw; [|by eapply Hd].
    apply lookup_singleton_Some in Hv as [_ <-]. apply HQ.
Qed.

Lemma merge_dom smiles files results d :
  Forall2 (task_result BloomFilter contains smiles) files results ->
  dom (merge results d) = dom d ∪ list_to_set (Path.stem <$> files).
Proof.
  intros Hres. revert d.
  induction Hres as [|path r files rs (bf & _ & ->) _ IH]; intros d; simpl.
  - set_solver.
  - unfold merge in IH. rewrite IH, dom_union_L, dom_singleton_L. set_solver.
Qed.

(** The entry of a path stays unless a later path has the same stem. *)
Lemma merge_retained smiles files results d i path :
  Forall2 (task_result BloomFilter contains smiles) files results ->
  files !! i = Some path ->
  (forall j path', (i < j)%nat -> files !! j = Some path' ->
                   Path.stem path' <> Path.stem path) ->
  exists bf, BloomFilter path = Ok bf /\
             merge results d !! Path.stem path = Some (members contains bf smiles).
Proof.
  intros Hres. revert i d.
  induction Hres as [|path0 r files rs (bf & Hbf & ->) Hrs IH]; intros i d Hi Hlater.
  - done.
  - destruct i as [|i]; simpl in *.
    + simplify_eq. exists bf. split; [done|].
      rewrite merge_lookup_absent.
      * apply lookup_union_Some_l, lookup_singleton_eq.
      * clear IH. assert (Hl : forall j path', files !! j = Some path' ->
                                 Path.stem path' <> Path.stem path).
        { intros j path' Hj. apply (Hlater (S j)); [lia|done]. }
        clear Hlater. induction Hrs as [|p r fs rs (bf' & _ & ->) _ IH'];
          constructor.
        -- apply lookup_singleton_ne. apply (Hl 0%nat). done.
        -- apply IH'. intros j path' Hj. by apply (Hl (S j)).
    + apply (IH i); [done|]. intros j path' Hij Hj.
      apply (Hlater (S j)); [lia|done].
Qed.

(** *** The unmatched queries *)

Lemma elem_of_chain_values (d : gmap string (list string)) q :
  q ∈ chain_values d <-> exists k v, d !! k = Some v /\ q ∈ v.
Proof.
  unfold chain_values. rewrite list_elem_of_In, in_concat. split.
  - intros (v & Hv & Hq). apply list_elem_of_In, list_elem_of_fmap in Hv.
    destruct Hv as ([k v'] & -> & Hkv). apply elem_of_map_to_list in Hkv.
    exists k, v'. by rewrite list_elem_of_In.
  - intros (k & v & Hkv & Hq). exists v. split; [|by apply list_elem_of_In].
    apply list_elem_of_In, list_elem_of_fmap. exists (k, v).
    split; [done|]. by apply elem_of_map_to_list.
Qed.

Lemma elem_of_not_in matched smiles q :
  q ∈ not_in matched smiles <-> q ∈ smiles /\ q ∉ matched.
Proof.
  unfold not_in. rewrite !list_elem_of_In, filter_In, negb_true_iff.
  by rewrite bool_decide_eq_false, list_elem_of_In.
Qed.

Lemma not_in_sublist matched smiles : not_in matched smiles `sublist_of` smiles.
Proof.
  unfold not_in. induction smiles as [|smile smiles IH]; simpl; [done|].
  destruct (negb _); by constructor.
Qed.

Lemma add_unmatched_fold matched smiles (d : gmap string (list string)) acc :
  fold_left
    (fun d smile =>
       if bool_decide (smile ∈ matched) then d
       else alter (fun l => l ++ [smile]) unmatched_key d)
    smiles (<[unmatched_key := acc]> d) =
  <[unmatched_key := acc ++ not_in matched smiles]> d.
Proof.
  revert acc. induction smiles as [|smile smiles IH]; intros acc; simpl.
  - by rewrite app_nil_r.
  - unfold not_in. simpl. case_bool_decide; simpl.
    + apply IH.
    + rewrite alter_insert_eq, IH. by rewrite <- app_assoc.
Qed.

Lemma add_unmatched_eq smiles (d : gmap string (list string)) :
  add_unmatched smiles d =
  <[unmatched_key := not_in (chain_values (<[unmatched_key := []]> d)) smiles]> d.
Proof. unfold add_unmatched. by rewrite add_unmatched_fold. Qed.

(** A run that ends well has read the queries, run every task and written
    one document. *)
Lemma find_matches_Ok glob_exp num_procs smiles_file out_file include_unmatched trace :
  find_matches BloomFilter contains glob read_lines
    glob_exp num_procs smiles_file out_file include_unmatched = (Ok tt, trace) ->
  exists in_file results,
    read_lines smiles_file = Ok in_file /\
    Forall2 (task_result BloomFilter contains (map Py.strip in_file)) (glob glob_exp) results /\
    last trace = Some (FileWritten out_file
      (if include_unmatched
       then add_unmatched (map Py.strip in_file) (merge results ∅)
       else merge results ∅)).
Proof.
  unfold find_matches. destruct (glob glob_exp) as [|f fs] eqn:Hglob; [done|].
  destruct (read_lines smiles_file) as [in_file|]; [|done].
  destruct (pool_map _ (f :: fs)) as [results|] eqn:Hpool; [|done].
  intros [= <-]. exists in_file, results. split; [done|].
  split; [by apply pool_map_bloom|].
  by rewrite !app_comm_cons, last_snoc.
Qed.

(** C7.  In a run with [include_unmatched] that ends well, the written
    document has the key "unmatched", and: a query is in the list of queries
    exactly when it is in some sequence of the document; no query of a
    sequence under another key is in the "unmatched" sequence; and the
    "unmatched" sequence is a subsequence of the queries in their order. *)
Theorem unmatched_complement
  (glob_exp : string) (num_procs : Z) (smiles_file out_file : string)
  (trace : list event) :
  find_matches BloomFilter contains glob read_lines
    glob_exp num_procs smiles_file out_file true = (Ok tt, trace) ->
  exists in_file document unmatched,
    read_lines smiles_file = Ok in_file /\
    last trace = Some (FileWritten out_file document) /\
    document !! unmatched_key = Some unmatched /\
    let smiles := map Py.strip in_file in
    (forall q, q ∈ smiles <-> exists key seq, document !! key = Some seq /\ q ∈ seq) /\
    (forall key seq q,
        key <> unmatched_key -> document !! key = Some seq -> q ∈ seq ->
        q ∉ unmatched) /\
    unmatched `sublist_of` smiles.
Proof.
  intros (in_file & results & Hread & Hres & Hlast)%find_matches_Ok.
  rewrite add_unmatched_eq in Hlast.
  set (smiles := map Py.strip in_file) in *.
  set (merged := merge results ∅) in *.
  set (matched := chain_values (<[unmatched_key := []]> merged)) in *.
  assert (Hmatched : forall q, q ∈ matched <->
            exists key seq, key <> unmatched_key /\ merged !! key = Some seq /\ q ∈ seq).
  { intros q. unfold matched. rewrite elem_of_chain_values. split.
    - intros (key & seq & Hkey & Hq). exists key, seq.
      destruct (decide (key = unmatched_key)) as [->|Hne].
      + rewrite lookup_insert_eq in Hkey. simplify_eq. by apply elem_of_nil in Hq.
      + by rewrite lookup_insert_ne in Hkey.
    - intros (key & seq & Hne & Hkey & Hq). exists key, seq.
      by rewrite lookup_insert_ne. }
  assert (Hsub : forall key seq q, merged !! key = Some seq -> q ∈ seq -> q ∈ smiles).
  { intros key seq q Hkey. revert q.
    apply (merge_values (fun v => forall q, q ∈ v -> q ∈ smiles)
             smiles (glob glob_exp) results ∅ key seq Hres); [|done|done].
    intros bf q Hq. by apply elem_of_members in Hq as [? _]. }
  exists in_file, (<[unmatched_key := not_in matched smiles]> merged),
    (not_in matched smiles).
  split; [done|]. split; [done|]. split; [apply lookup_insert_eq|].
  split; [|split].
  - intros q. split.
    + intros Hq. destruct (decide (q ∈ matched)) as [Hin|Hout].
      * apply Hmatched in Hin as (key & seq & Hne & Hkey & Hin).
        exists key, seq. by rewrite lookup_insert_ne.
      * exists unmatched_key, (not_in matched smiles).
        rewrite lookup_insert_eq. split; [done|]. by apply elem_of_not_in.
    + intros (key & seq & Hkey & Hq).
      destruct (decide (key = unmatched_key)) as [->|Hne].
      * rewrite lookup_insert_eq in Hkey. simplify_eq.
        by apply elem_of_not_in in Hq as [? _].
      * rewrite lookup_insert_ne in Hkey by done. by eapply Hsub.
  - intros key seq q Hne Hkey Hq [_ Hout]%elem_of_not_in.
    rewrite lookup_insert_ne in Hkey by done.
    apply Hout, Hmatched. by exists key, seq.
  - apply not_in_sublist.
Qed.

(** C9, as amended.  In a run that ends well, the keys of the written
    document are the stems of the paths the glob pattern gave, with the key
    "unmatched" when it was asked for, whatever its sequence.  A path that no
    later path of the list shares its stem with has its own result under
    its stem, unless that stem is "unmatched" and the reserved key was asked
    for: the reserved key holds the queries found under no other key. *)
Theorem merged_keys_and_values
  (glob_exp : string) (num_procs : Z) (smiles_file out_file : string)
  (include_unmatched : bool) (trace : list event) :
  find_matches BloomFilter contains glob read_lines
    glob_exp num_procs smiles_file out_file include_unmatched = (Ok tt, trace) ->
  exists in_file document,
    read_lines smiles_file = Ok in_file /\
    last trace = Some (FileWritten out_file document) /\
    let smiles := map Py.strip in_file in
    dom document =
      list_to_set (Path.stem <$> glob glob_exp) ∪
      (if include_unmatched then {[ unmatched_key ]} else ∅) /\
    (forall i path,
        glob glob_exp !! i = Some path ->
        (forall j path', (i < j)%nat -> glob glob_exp !! j = Some path' ->
                         Path.stem path' <> Path.stem path) ->
        include_unmatched = false \/ Path.stem path <> unmatched_key ->
        exists bf, BloomFilter path = Ok bf /\
                   document !! Path.stem path = Some (members contains bf smiles)) /\
    (include_unmatched = true ->
     exists unmatched,
       document !! unmatched_key = Some unmatched /\
       forall q, q ∈ unmatched <->
                 q ∈ smiles /\
                 forall key seq, key <> unmatched_key ->
                                 document !! key = Some seq -> q ∉ seq).
Proof.
  intros (in_file & results & Hread & Hres & Hlast)%find_matches_Ok.
  eexists in_file, _. split; [done|]. split; [exact Hlast|]. simpl.
  set (smiles := map Py.strip in_file) in *.
  set (merged := merge results ∅) in *.
  pose proof (merge_dom smiles _ _ ∅ Hres) as Hdom. fold merged in Hdom.
  assert (Hkeep : forall i path,
            glob glob_exp !! i = Some path ->
            (forall j path', (i < j)%nat -> glob glob_exp !! j = Some path' ->
                             Path.stem path' <> Path.stem path) ->
            exists bf, BloomFilter path = Ok bf /\
                       merged !! Path.stem path = Some (members contains bf smiles)).
  { intros i path Hi Hlater. by eapply merge_retained. }
  destruct include_unmatched.
  - rewrite add_unmatched_eq. split; [|split].
    + rewrite dom_insert_L, Hdom, dom_empty_L. set_solver.
    + intros i path Hi Hlater [?|Hne]; [done|].
      rewrite lookup_insert_ne by done. by eapply Hkeep.
    + intros _. eexists. split; [apply lookup_insert_eq|].
      intros q. rewrite elem_of_not_in, elem_of_chain_values.
      split; intros [Hq Hout]; (split; [done|]).
      * intros key seq Hne Hkey Hin. apply Hout. exists key, seq.
        rewrite lookup_insert_ne in Hkey by done. by rewrite lookup_insert_ne.
      * intros (key & seq & Hkey & Hin).
        destruct (decide (key = unmatched_key)) as [->|Hne].
        -- rewrite lookup_insert_eq in Hkey. simplify_eq. by apply elem_of_nil in Hin.
        -- rewrite lookup_insert_ne in Hkey by done.
           apply (Hout key seq); [done| |done]. by rewrite lookup_insert_ne.
  - split; [|split].
    + rewrite Hdom, dom_empty_L. set_solver.
    + intros i path Hi Hlater _. by eapply Hkeep.
    + done.
Qed.

End FilteringFacts.

(** ** The scenarios *)

(** The scenario of the specification: filters [A] and [B], three queries. *)
Example scenario_run :
  Scenario.run Scenario.filters Scenario.queries true =
  (Ok tt,
   [PoolStarted 2; TaskDispatched "filters/A.bloom"; TaskDispatched "filters/B.bloom";
    FileWritten "results.json"
      (<["A" := ["CCO"]]> (<["B" := ["CCN"]]> {[ "unmatched" := ["CCC"] ]}))]).
Proof. by vm_compute. Qed.

(** The filter [A] of the scenario on its three queries. *)
Lemma bloom_match_members_witness :
  bloom_match (Scenario.load Scenario.filters) Scenario.member
    "filters/A.bloom" Scenario.queries = Ok {[ "A" := ["CCO"] ]}.
Proof.
  destruct (bloom_match_members (Scenario.load Scenario.filters) Scenario.member
              "filters/A.bloom" Scenario.queries ["CCO"] eq_refl) as [H _].
  exact H.
Defined.

(** The scenario without any filter. *)
Lemma find_matches_no_filters_witness :
  Scenario.run [] Scenario.queries true =
  (Raise (ValueError "No bloom filters found using the glob expression: filters/*.bloom"), []).
Proof.
  exact (find_matches_no_filters (Scenario.load []) Scenario.member (fun _ => [])
           (fun _ => Ok Scenario.queries) "filters/*.bloom" (-1) "queries.smi"
           "results.json" true eq_refl).
Defined.

(** The document of the scenario and its "unmatched" sequence. *)
Lemma unmatched_complement_witness :
  exists document unmatched,
    last (Scenario.run Scenario.filters Scenario.queries true).2 =
      Some (FileWritten "results.json" document) /\
    document !! unmatched_key = Some unmatched /\
    unmatched `sublist_of` Scenario.queries.
Proof.
  destruct (unmatched_complement (Scenario.load Scenario.filters) Scenario.member
              (fun _ => Scenario.filters.*1) (fun _ => Ok Scenario.queries)
              "filters/*.bloom" (-1) "queries.smi" "results.json" _ scenario_run)
    as (in_file & document & unmatched & Hread & Hlast & Hkey & _ & _ & Hsub).
  exists document, unmatched. rewrite scenario_run.
  injection Hread as <-. auto.
Defined.

(** The keys of the document of the scenario. *)
Lemma merged_keys_and_values_witness :
  exists document,
    last (Scenario.run Scenario.filters Scenario.queries true).2 =
      Some (FileWritten "results.json" document) /\
    dom document = {[ "A"; "B"; "unmatched" ]}.
Proof.
  destruct (merged_keys_and_values (Scenario.load Scenario.filters) Scenario.member
              (fun _ => Scenario.filters.*1) (fun _ => Ok Scenario.queries)
              "filters/*.bloom" (-1) "queries.smi" "results.json" true _ scenario_run)
    as (in_file & document & Hread & Hlast & Hdom & _).
  exists document. rewrite scenario_run. split; [done|].
  rewrite Hdom. by vm_compute.
Defined.

(** C9 as stated fails when the reserved key is also the stem of a filter.
    With [x/unmatched.bloom] and [y/unmatched.bloom] and the reserved key asked
    for, the later path returns ["CCN"] under "unmatched", and the document
    holds all three queries there. *)
Lemma reserved_key_replaces_result :
  Scenario.run Scenario.collide Scenario.queries true =
  (Ok tt,
   [PoolStarted 2; TaskDispatched "x/unmatched.bloom"; TaskDispatched "y/unmatched.bloom";
    FileWritten "results.json" {[ "unmatched" := ["CCO"; "CCN"; "CCC"] ]}]) /\
  bloom_match (Scenario.load Scenario.collide) Scenario.member
    "y/unmatched.bloom" Scenario.queries = Ok {[ "unmatched" := ["CCN"] ]} /\
  ({[ "unmatched" := ["CCO"; "CCN"; "CCC"] ]} : gmap string (list string)) !! "unmatched"
    <> Some ["CCN"].
Proof. repeat split; by vm_compute. Qed.

(** * Further properties of the program *)

(** ** The detector *)

Section DetectorFacts.
Import Re ReFacts Py PyFacts.

Lemma accepts_one_of cs a : accepts (OneOf cs) a = true <-> a ∈ chars cs.
Proof. simpl. apply bool_decide_eq_true. Qed.

Lemma search_leftmost p l m :
  search p l = Some m ->
  exists pre post,
    l = pre ++ m ++ post /\
    forall p1 p2, pre = p1 ++ p2 -> p2 <> [] -> match_here p (p2 ++ m ++ post) = None.
Proof.
  induction l as [|a l IH]; simpl.
  - destruct (match_here p []) as [m'|] eqn:Hm; [|done].
    intros [= <-]. destruct (match_here_sound p _ _ Hm) as [_ [r Hr]].
    exists [], r. split; [done|].
    intros p1 p2 Hpre Hp2. symmetry in Hpre. by apply app_eq_nil in Hpre as [_ ->].
  - destruct (match_here p (a :: l)) as [m'|] eqn:Hm.
    + intros [= <-]. destruct (match_here_sound p _ _ Hm) as [_ [r Hr]].
      exists [], r. split; [done|].
      intros p1 p2 Hpre Hp2. symmetry in Hpre. by apply app_eq_nil in Hpre as [_ ->].
    + intros Hs. destruct (IH Hs) as (pre & post & -> & Hleft).
      exists (a :: pre), post. split; [done|].
      intros [|b p1] p2 Hpre Hp2; simpl in Hpre.
      * by subst p2.
      * injection Hpre as <- Hpre. by apply (Hleft p1 p2).
Qed.

(** X1.  The detected token is a part of the text, made of an optional sign, digits,
    points, at least one more digit and one of the letters k, K, m, M, b, B. *)
Theorem detected_token_shape (text token : string) :
  detect_humanized_number text = Ok token ->
  substring (chars token) (chars text) /\
  exists sg ip dots fp c,
    chars token = sg ++ ip ++ dots ++ fp ++ [c] /\
    sg ∈ [[]; ["-"%char]; ["+"%char]] /\
    Forall (fun a => is_digit a = true) ip /\
    Forall (fun a => a = "."%char) dots /\
    fp <> [] /\ Forall (fun a => is_digit a = true) fp /\
    c ∈ chars "kKmMbB".
Proof.
  intros (m & -> & Hm & Hsub)%detect_humanized_number_Ok. rewrite chars_str.
  split; [done|].
  destruct (regex_shape m Hm) as (sg & ip & dots & fp & d & c & -> & Hsg & Hip & Hdots & Hfp & Hc).
  exists sg, ip, dots, (fp ++ [d]), c. split; [done|]. split.
  { destruct Hsg as [->|(a & -> & Ha)]; [set_solver|].
    apply accepts_one_of in Ha. change (chars "-+") with ["-"%char; "+"%char] in Ha.
    set_solver. }
  split; [done|]. split.
  { eapply Forall_impl; [exact Hdots|]. intros a Ha. apply accepts_one_of in Ha.
    change (chars ".") with ["."%char] in Ha. set_solver. }
  split; [by destruct fp|]. split; [done|]. by apply accepts_one_of.
Qed.

Lemma detected_token_shape_witness :
  substring (chars "666M") (chars "Enamine_REAL_HAC_11_21_666M_CXSMILES.cxsmiles.bz2").
Proof.
  destruct (detected_token_shape "Enamine_REAL_HAC_11_21_666M_CXSMILES.cxsmiles.bz2"
              "666M" eq_refl) as [H _].
  exact H.
Defined.

(** X2.  The detector finds a token exactly in the texts where some digit is
    directly followed by one of the letters k, K, m, M, b, B. *)
Theorem detect_succeeds_iff (text : string) :
  (exists token, detect_humanized_number text = Ok token) <->
  (exists pre d c post,
      chars text = pre ++ d :: c :: post /\
      is_digit d = true /\ c ∈ chars "kKmMbB").
Proof.
  split.
  - intros [token (m & -> & Hm & pre & post & Hsub)%detect_humanized_number_Ok].
    destruct (regex_shape m Hm) as (sg & ip & dots & fp & d & c & -> & _ & _ & _ & Hfp & Hc).
    apply Forall_app in Hfp as [_ Hd]. inversion Hd; subst.
    exists (pre ++ sg ++ ip ++ dots ++ fp), d, c, post. rewrite Hsub.
    split; [by rewrite <- !app_assoc|]. split; [done|]. by apply accepts_one_of.
  - intros (pre & d & c & post & Htext & Hd & Hc).
    destruct (search_complete regex (chars text) [d; c]) as [m Hm].
    + by exists pre, post.
    + unfold regex. apply matches_opt_skip, matches_star_stop, matches_star_stop.
      apply matches_plus; [done|]. apply matches_star_stop.
      apply matches_once; [by apply accepts_one_of|]. constructor.
    + exists (str m). unfold detect_humanized_number. by rewrite Hm.
Qed.

(** X3.  The detected token is the leftmost: no text of the pattern starts in the
    text before the place where the token starts. *)
Theorem detected_token_leftmost (text token : string) :
  detect_humanized_number text = Ok token ->
  exists pre post,
    chars text = pre ++ chars token ++ post /\
    forall p1 p2 t,
      pre = p1 ++ p2 -> p2 <> [] -> matches regex t ->
      ~ t `prefix_of` p2 ++ chars token ++ post.
Proof.
  unfold detect_humanized_number.
  destruct (search regex (chars text)) as [m|] eqn:Hs; [|done].
  intros [= <-]. rewrite chars_str.
  destruct (search_leftmost _ _ _ Hs) as (pre & post & Htext & Hleft).
  exists pre, post. split; [done|].
  intros p1 p2 t Hpre Hp2 Ht [r Hr].
  destruct (match_here_complete regex t r Ht) as [m' Hm'].
  rewrite <- Hr, (Hleft p1 p2 Hpre Hp2) in Hm'. done.
Qed.

Lemma detected_token_leftmost_witness :
  exists pre post,
    chars "run_12K_34M.bz2" = pre ++ chars "12K" ++ post /\
    forall p1 p2 t,
      pre = p1 ++ p2 -> p2 <> [] -> matches regex t ->
      ~ t `prefix_of` p2 ++ chars "12K" ++ post.
Proof. exact (detected_token_leftmost "run_12K_34M.bz2" "12K" eq_refl). Defined.

End DetectorFacts.

(** ** Integers that binary64 holds exactly *)

Module FloatFacts.
Import Py.

Lemma shiftl_nat_pow v k : Zpos (Pos.shiftl_nat v k) = Zpos v * 2 ^ Z.of_nat k.
Proof.
  induction k as [|k IH].
  - simpl. lia.
  - rewrite Nat2Z.inj_succ, Z.pow_succ_r by lia.
    change (Pos.shiftl_nat v (S k)) with (xO (Pos.shiftl_nat v k)). lia.
Qed.

Lemma shiftl_nat_digits v k :
  Zpos (digits2_pos (Pos.shiftl_nat v k)) = Zpos (digits2_pos v) + Z.of_nat k.
Proof.
  induction k as [|k IH].
  - simpl. lia.
  - change (Pos.shiftl_nat v (S k)) with (xO (Pos.shiftl_nat v k)). simpl. lia.
Qed.

Lemma shiftl_nat_mul v1 k1 v2 k2 :
  (Pos.shiftl_nat v1 k1 * Pos.shiftl_nat v2 k2)%positive =
  Pos.shiftl_nat (v1 * v2) (k1 + k2).
Proof.
  apply Pos2Z.inj. rewrite Pos2Z.inj_mul, !shiftl_nat_pow, Pos2Z.inj_mul.
  rewrite Nat2Z.inj_add, Z.pow_add_r by lia. ring.
Qed.

(** A number of [d] binary digits lies in [2^(d-1) .. 2^d - 1]. *)
Lemma digits2_bounds v :
  2 ^ (Zpos (digits2_pos v) - 1) <= Zpos v < 2 ^ Zpos (digits2_pos v).
Proof.
  induction v as [v IH|v IH|]; simpl digits2_pos.
  - rewrite Pos2Z.inj_succ.
    replace (Z.succ (Zpos (digits2_pos v)) - 1) with (Z.succ (Zpos (digits2_pos v) - 1)) by lia.
    rewrite !Z.pow_succ_r by lia. lia.
  - rewrite Pos2Z.inj_succ.
    replace (Z.succ (Zpos (digits2_pos v)) - 1) with (Z.succ (Zpos (digits2_pos v) - 1)) by lia.
    rewrite !Z.pow_succ_r by lia. lia.
  - simpl. lia.
Qed.

Lemma digits2_le v n : Zpos v < 2 ^ n -> Zpos (digits2_pos v) <= n.
Proof.
  intros Hv. destruct (digits2_bounds v) as [Hlo _].
  destruct (Z.le_gt_cases (Zpos (digits2_pos v)) n) as [|Hgt]; [done|].
  assert (2 ^ n <= 2 ^ (Zpos (digits2_pos v) - 1)).
  { apply Z.pow_le_mono_r; lia. }
  lia.
Qed.

Lemma digits2_mono v w : (v <= w)%positive -> Zpos (digits2_pos v) <= Zpos (digits2_pos w).
Proof.
  intros Hvw. apply digits2_le. destruct (digits2_bounds w). lia.
Qed.

Lemma iter_pos_nat {A} (f : A -> A) p x :
  SpecFloat.iter_pos f p x = Nat.iter (Pos.to_nat p) f x.
Proof.
  revert x. induction p as [p IH|p IH|]; intros x; cbn [SpecFloat.iter_pos].
  - rewrite !IH, Pos2Nat.inj_xI.
    replace (S (2 * Pos.to_nat p)) with (Pos.to_nat p + S (Pos.to_nat p))%nat by lia.
    rewrite Nat.iter_add. f_equal. by rewrite Nat.iter_succ_r.
  - rewrite !IH, Pos2Nat.inj_xO.
    replace (2 * Pos.to_nat p)%nat with (Pos.to_nat p + Pos.to_nat p)%nat by lia.
    by rewrite Nat.iter_add.
  - done.
Qed.

(** Shifting zeros out to the right loses nothing. *)
Lemma shr_1_zeros v k n :
  (n <= k)%nat ->
  Nat.iter n shr_1 (Build_shr_record (Zpos (Pos.shiftl_nat v k)) false false) =
  Build_shr_record (Zpos (Pos.shiftl_nat v (k - n))) false false.
Proof.
  induction n as [|n IH]; intros Hn.
  - by rewrite Nat.sub_0_r.
  - simpl. rewrite IH by lia.
    replace (k - n)%nat with (S (k - S n)) by lia. done.
Qed.

Lemma fexp_small d : 1 <= d <= prec -> fexp prec emax d = d - prec.
Proof. unfold fexp, emin, prec, emax. lia. Qed.

(** The first step of rounding, on a number of at most 53 digits followed by
    [k] zeros: the number is brought to 53 digits. *)
Lemma shr_fexp_exact v k :
  let d := Zpos (digits2_pos v) in
  d <= prec -> prec - d <= Z.of_nat k ->
  shr_fexp prec emax (Zpos (Pos.shiftl_nat v k)) (- Z.of_nat k) loc_Exact =
  (Build_shr_record (Zpos (Pos.shiftl_nat v (Z.to_nat (prec - d)))) false false,
   d - prec).
Proof.
  intros d Hd Hk. unfold shr_fexp. simpl Zdigits2. rewrite shiftl_nat_digits.
  fold d. replace (d + Z.of_nat k + - Z.of_nat k) with d by lia.
  rewrite fexp_small by (unfold d; lia). unfold shr. simpl shr_record_of_loc.
  destruct (d - prec - - Z.of_nat k) as [|n|n] eqn:Hn; [|..].
  - replace (Z.to_nat (prec - d)) with k by lia. f_equal. lia.
  - rewrite iter_pos_nat, shr_1_zeros by lia. f_equal; [|lia].
    do 3 f_equal. lia.
  - lia.
Qed.

Lemma binary_round_aux_exact neg v k :
  let d := Zpos (digits2_pos v) in
  d <= prec -> prec - d <= Z.of_nat k ->
  binary_round_aux prec emax neg (Zpos (Pos.shiftl_nat v k)) (- Z.of_nat k) loc_Exact =
  S754_finite neg (Pos.shiftl_nat v (Z.to_nat (prec - d))) (d - prec).
Proof.
  intros d Hd Hk. unfold binary_round_aux.
  rewrite (shr_fexp_exact v k Hd Hk). fold d. simpl shr_m. simpl loc_of_shr_record.
  simpl round_nearest_even.
  replace (d - prec) with (- Z.of_nat (Z.to_nat (prec - d))) at 1 by lia.
  rewrite shr_fexp_exact by (fold d; lia). fold d. simpl shr_m.
  destruct (Z.leb_spec (d - prec) (emax - prec)); [done|].
  unfold prec, emax in *. lia.
Qed.

(** [float(n)] for a positive [n] below [2^53]. *)
Lemma binary_round_exact neg v :
  let d := Zpos (digits2_pos v) in
  d <= prec ->
  binary_round prec emax neg v 0 =
  S754_finite neg (Pos.shiftl_nat v (Z.to_nat (prec - d))) (d - prec).
Proof.
  intros d Hd. unfold binary_round, shl_align. rewrite Z.add_0_r. fold d.
  rewrite fexp_small by (unfold d; lia). rewrite Z.sub_0_r.
  destruct (d - prec) as [|n|n] eqn:Hn.
  - pose proof (binary_round_aux_exact neg v 0) as H. cbv zeta in H.
    change (Pos.shiftl_nat v 0) with v in H. change (- Z.of_nat 0) with 0 in H.
    fold d in H. rewrite H by (simpl; lia). by rewrite Hn.
  - lia.
  - rewrite Pos2Nat.inj_iter.
    change (nat_rect _ v (fun _ => xO) (Pos.to_nat n)) with (Pos.shiftl_nat v (Pos.to_nat n)).
    replace (Z.neg n) with (- Z.of_nat (Pos.to_nat n)) at 1 by lia.
    rewrite binary_round_aux_exact by (fold d; lia). fold d. by rewrite Hn.
Qed.

Lemma int_of_float_exact neg v k :
  int_of_float (S754_finite neg (Pos.shiftl_nat v k) (- Z.of_nat k)) =
  Ok (cond_Zopp neg (Zpos v)).
Proof.
  simpl. do 2 f_equal. rewrite shiftl_nat_pow.
  rewrite Z.shiftl_opp_r, Z.shiftr_div_pow2 by lia.
  apply Z.div_mul. lia.
Qed.

(** The product of two exact integers, itself below [2^53], is exact, and
    [int()] gives it back. *)
Lemma int_of_float_mul_exact neg v w :
  Zpos v * Zpos w < 2 ^ prec ->
  int_of_float
    (float_mul (binary_round prec emax neg v 0) (binary_round prec emax false w 0)) =
  Ok (cond_Zopp neg (Zpos v * Zpos w)).
Proof.
  intros Hvw.
  assert (Hd : Zpos (digits2_pos (v * w)) <= prec) by (apply digits2_le; lia).
  assert (Hv : Zpos (digits2_pos v) <= Zpos (digits2_pos (v * w))) by (apply digits2_mono; nia).
  assert (Hw : Zpos (digits2_pos w) <= Zpos (digits2_pos (v * w))) by (apply digits2_mono; nia).
  rewrite !binary_round_exact by lia. unfold float_mul. simpl SFmul.
  rewrite xorb_false_r, shiftl_nat_mul.
  replace (Z.pos (digits2_pos v) - prec + (Z.pos (digits2_pos w) - prec))
    with (- Z.of_nat (Z.to_nat (prec - Z.pos (digits2_pos v)) +
                      Z.to_nat (prec - Z.pos (digits2_pos w)))) by lia.
  rewrite binary_round_aux_exact by lia.
  replace (Z.pos (digits2_pos (v * w)) - prec)
    with (- Z.of_nat (Z.to_nat (prec - Z.pos (digits2_pos (v * w))))) by lia.
  apply int_of_float_exact.
Qed.

End FloatFacts.

(** ** The numeric conversion *)

Section ConversionFacts.
Import Py PyFacts FloatFacts.

Lemma digit_upper a : is_digit a = true -> upper_char a = a.
Proof. each_char a. Qed.

Lemma digit_lower a : is_digit a = true -> lower_char a = a.
Proof. each_char a. Qed.

Lemma digit_no_space a : is_digit a = true -> is_space a = false.
Proof. each_char a. Qed.

Lemma digit_no_underscore a : is_digit a = true -> a <> "_"%char.
Proof. each_char a. Qed.

Lemma digit_no_sign a :
  is_digit a = true -> Ascii.eqb a "-" = false /\ Ascii.eqb a "+" = false.
Proof. each_char a. Qed.

Lemma upper_char_idem a : upper_char (upper_char a) = upper_char a.
Proof. each_char a. Qed.

Lemma lstrip_id l : Forall (fun a => is_space a = false) l -> lstrip l = l.
Proof. intros [|a r Ha _]; [done|]. by apply lstrip_nonspace. Qed.

Lemma strip_chars_id l : Forall (fun a => is_space a = false) l -> strip_chars l = l.
Proof.
  intros Hl. unfold strip_chars, rstrip. rewrite (lstrip_id l Hl).
  rewrite lstrip_id by (by apply Forall_rev). apply rev_involutive.
Qed.

Lemma lstrip_idem l : lstrip (lstrip l) = lstrip l.
Proof.
  destruct (lstrip l) as [|a r] eqn:Hl; [done|].
  apply lstrip_nonspace. by eapply lstrip_head.
Qed.

Lemma strip_chars_idem l : strip_chars (strip_chars l) = strip_chars l.
Proof.
  pose proof (strip_chars_head l) as Hs. unfold strip_chars at 1.
  assert (Hl : lstrip (strip_chars l) = strip_chars l).
  { destruct (lstrip l) as [|a r]; [by rewrite Hs|].
    destruct Hs as [Ha [r' ->]]. by apply lstrip_nonspace. }
  rewrite Hl. unfold strip_chars, rstrip.
  by rewrite rev_involutive, lstrip_idem.
Qed.

Lemma lstrip_upper l : lstrip (map upper_char l) = map upper_char (lstrip l).
Proof.
  induction l as [|a l IH]; simpl; [done|].
  rewrite upper_char_space. by destruct (is_space a).
Qed.

Lemma strip_chars_upper l :
  strip_chars (map upper_char l) = map upper_char (strip_chars l).
Proof.
  unfold strip_chars, rstrip.
  by rewrite lstrip_upper, <- map_rev, lstrip_upper, map_rev.
Qed.

Lemma upper_strip_upper s : upper (strip (upper s)) = upper (strip s).
Proof.
  unfold upper, strip. rewrite !chars_str, strip_chars_upper. f_equal.
  rewrite map_map. apply map_ext, upper_char_idem.
Qed.

Lemma upper_upper s : upper (upper s) = upper s.
Proof.
  unfold upper. rewrite chars_str, map_map. f_equal. apply map_ext, upper_char_idem.
Qed.

Lemma strip_strip s : strip (strip s) = strip s.
Proof. unfold strip. by rewrite chars_str, strip_chars_idem. Qed.

Lemma upper_digits ds :
  Forall (fun a => is_digit a = true) ds -> map upper_char ds = ds.
Proof.
  induction 1 as [|a ds Ha _ IH]; simpl; [done|]. by rewrite digit_upper, IH.
Qed.

Lemma underscores_ok_digits prev ds :
  prev <> "_"%char -> Forall (fun a => is_digit a = true) ds ->
  underscores_ok_from prev ds = true.
Proof.
  intros Hprev Hds. revert prev Hprev.
  induction Hds as [|a ds Ha _ IH]; intros prev Hprev; simpl.
  - by destruct (Ascii.eqb_spec prev "_").
  - pose proof (digit_no_underscore a Ha) as Hne.
    destruct (Ascii.eqb_spec a "_"); [done|].
    rewrite Ha, IH by done. by destruct (Ascii.eqb prev "_").
Qed.

Lemma remove_underscores_digits ds :
  Forall (fun a => is_digit a = true) ds -> remove_underscores ds = ds.
Proof.
  unfold remove_underscores. induction 1 as [|a ds Ha _ IH]; [done|].
  rewrite filter_cons_True by (by apply digit_no_underscore). by rewrite IH.
Qed.

Lemma span_digits_all ds :
  Forall (fun a => is_digit a = true) ds -> span_digits ds = (ds, []).
Proof.
  induction 1 as [|a ds Ha _ IH]; simpl; [done|]. by rewrite Ha, IH.
Qed.

Lemma split_sign_digits ds :
  Forall (fun a => is_digit a = true) ds -> split_sign ds = (false, ds).
Proof.
  intros [|a r Ha _]; [done|]. simpl.
  by destruct (digit_no_sign a Ha) as [-> ->].
Qed.

Lemma digits_no_space ds :
  Forall (fun a => is_digit a = true) ds -> Forall (fun a => is_space a = false) ds.
Proof. intros Hds. eapply Forall_impl; [exact Hds|]. apply digit_no_space. Qed.


(** [float()] of a literal of digits. *)
Lemma float_of_str_digits ds :
  ds <> [] -> Forall (fun a => is_digit a = true) ds ->
  float_of_str (str ds) = Ok (float_of_decimal false (decimal ds) 0).
Proof.
  intros Hne Hds. unfold float_of_str.
  rewrite chars_str, strip_chars_id by auto using digits_no_space.
  unfold underscores_ok. rewrite underscores_ok_digits by done.
  rewrite remove_underscores_digits, split_sign_digits by done.
  unfold float_body. rewrite span_digits_all by done.
  destruct ds as [|d ds]; [done|]. inversion Hds as [|? ? Hd Hds']; subst.
  simpl map. rewrite (digit_lower d Hd).
  repeat match goal with
  | |- context [bool_decide (str (d :: ?w) = ?s)] =>
      let H := fresh in
      destruct (bool_decide (str (d :: w) = s)) eqn:H;
      [apply bool_decide_eq_true in H; injection H as -> _; done|]
  end.
  simpl. by rewrite app_nil_r.
Qed.

(** The last character decides [endswith] for a suffix of one character. *)
Lemma endswith_last l a b :
  endswith (str (l ++ [a])) (String b EmptyString) = bool_decide (a = b).
Proof.
  unfold endswith, chars_eqb. rewrite chars_str. simpl chars. simpl length at 1 3.
  rewrite length_app. simpl length.
  replace (length l + 1 - 1)%nat with (length l) by lia.
  rewrite drop_app_length.
  destruct (Nat.leb_spec 1 (length l + 1)); [|lia]. simpl.
  apply bool_decide_ext. split; [by intros [= ->]|by intros ->].
Qed.

Lemma drop_last_snoc l a : drop_last (str (l ++ [a])) = str l.
Proof. unfold drop_last. by rewrite chars_str, removelast_last. Qed.

Lemma float_of_int_exact w :
  Zpos w < 2 ^ prec -> float_of_int (Zpos w) = Ok (binary_round prec emax false w 0).
Proof.
  intros Hw. unfold float_of_int. simpl binary_normalize.
  by rewrite binary_round_exact by (by apply digits2_le).
Qed.


(** The entry of [multipliers] that the loop takes for a text ending in the
    letter [c]. *)
Lemma parse_suffix_loop_letter l c mult :
  (String (upper_char c) EmptyString, mult) ∈ multipliers ->
  parse_suffix_loop multipliers (str (map upper_char (l ++ [c]))) =
  Some (x ← float_of_str (str (map upper_char l));
        y ← float_of_int mult;
        int_of_float (float_mul x y)).
Proof.
  intros Hc. rewrite map_app. simpl map.
  unfold multipliers in *. simpl parse_suffix_loop. unfold upper.
  rewrite chars_str, map_app, map_map. simpl map. rewrite upper_char_idem.
  rewrite (map_ext _ _ upper_char_idem), !endswith_last, drop_last_snoc.
  repeat (apply elem_of_cons in Hc as [[= -> ->]|Hc]; [done|]).
  by apply elem_of_nil in Hc.
Qed.

Lemma suffix_letter_no_space c mult :
  (String (upper_char c) EmptyString, mult) ∈ multipliers -> is_space c = false.
Proof.
  unfold multipliers. intros Hc.
  repeat (apply elem_of_cons in Hc as [[= Hc _]|Hc]; [revert Hc; by each_char c|]).
  by apply elem_of_nil in Hc.
Qed.

Lemma multiplier_positive suffix mult :
  (suffix, mult) ∈ multipliers -> exists w, mult = Zpos w /\ Zpos w < 2 ^ prec.
Proof.
  unfold multipliers. intros Hc.
  repeat (apply elem_of_cons in Hc as [[= -> ->]|Hc]; [by eexists|]).
  by apply elem_of_nil in Hc.
Qed.

(** X5.  Digits followed by K, M or B in either case convert to the number the
    digits denote times the multiplier of the letter, as long as the product
    is below [2^53]: below it nothing is lost in the passage through floats. *)
Theorem parse_suffixed_integer (ds : list ascii) (c : ascii) (mult : Z) :
  ds <> [] -> Forall (fun a => is_digit a = true) ds ->
  (String (upper_char c) EmptyString, mult) ∈ multipliers ->
  decimal ds * mult < 2 ^ 53 ->
  parse_humanized_string (str (ds ++ [c])) = Ok (decimal ds * mult).
Proof.
  intros Hne Hds Hc Hlt. unfold parse_humanized_string.
  assert (Hh : upper (strip (str (ds ++ [c]))) = str (map upper_char (ds ++ [c]))).
  { unfold upper, strip. rewrite !chars_str, strip_chars_id; [done|].
    apply Forall_app_2; [by apply digits_no_space|].
    constructor; [by eapply suffix_letter_no_space|constructor]. }
  rewrite Hh, (parse_suffix_loop_letter ds c mult Hc), upper_digits by done.
  rewrite float_of_str_digits by done. simpl.
  destruct (multiplier_positive _ _ Hc) as (w & -> & Hw).
  rewrite float_of_int_exact by done. simpl.
  pose proof (decimal_from_nonneg ds 0 Hds ltac:(lia)) as Hnn. fold (decimal ds) in Hnn.
  destruct (decimal ds) as [|v|v] eqn:Hv; [| |lia].
  - rewrite binary_round_exact by (by apply digits2_le). done.
  - unfold float_of_decimal. change (0 <=? 0) with true. cbv iota.
    change (Z.to_pos (10 ^ 0)) with 1%positive. rewrite Pos.mul_1_r.
    by rewrite (int_of_float_mul_exact false v w) by (unfold prec; lia).
Qed.

(** X6.  Neither the case of the letters nor blanks around the text matter to the
    conversion. *)
Theorem parse_ignores_case_and_margins :
  (forall s, parse_humanized_string (upper s) = parse_humanized_string s) /\
  (forall s, parse_humanized_string (strip s) = parse_humanized_string s) /\
  (forall s1 s2, upper s1 = upper s2 ->
                 parse_humanized_string s1 = parse_humanized_string s2).
Proof.
  assert (Hcase : forall s, parse_humanized_string (upper s) = parse_humanized_string s).
  { intros s. unfold parse_humanized_string. by rewrite upper_strip_upper. }
  split; [done|]. split.
  - intros s. unfold parse_humanized_string. by rewrite strip_strip.
  - intros s1 s2 Hs. by rewrite <- (Hcase s1), <- (Hcase s2), Hs.
Qed.

(** [int()] raises nothing but its [ValueError]. *)
Lemma int_of_str_error s e : int_of_str s = Raise e -> exists msg, e = ValueError msg.
Proof.
  unfold int_of_str. destruct (split_sign _) as [neg body].
  destruct (underscores_ok body); [|intros [= <-]; by eexists].
  destruct (span_digits _) as [[|d ds] [|? ?]]; intros [= <-]; by eexists.
Qed.

(** X7.  The exceptions of the conversion.  A text that does not end in K, M or B
    (in either case, blanks apart) raises the format error and no other; a
    text that does never raises it: it raises what [float()] and [int()]
    raise. *)
Theorem parse_error_kinds (s : string) (e : exn) :
  parse_humanized_string s = Raise e ->
  let h := upper (strip s) in
  if endswith h "K" || endswith h "M" || endswith h "B"
  then e ∈ [ValueError "could not convert string to float";
            ValueError "cannot convert float NaN to integer";
            OverflowError "cannot convert float infinity to integer"]
  else e = invalid_format.
Proof.
  intros Hp h. unfold parse_humanized_string in Hp. fold h in Hp.
  assert (Hloop : if endswith h "K" || endswith h "M" || endswith h "B"
                  then exists r, parse_suffix_loop multipliers h = Some r
                  else parse_suffix_loop multipliers h = None).
  { unfold multipliers. cbn [parse_suffix_loop]. unfold h. rewrite upper_upper.
    repeat (destruct (endswith _ _); [cbn [orb]; by eexists|]). done. }
  destruct (endswith h "K" || endswith h "M" || endswith h "B").
  - destruct Hloop as [r Hr]. rewrite Hr in Hp.
    apply parse_suffix_loop_Some in Hr as (m & x & ->).
    unfold float_of_str in Hp.
    destruct (underscores_ok _); [|simpl in Hp; simplify_eq; set_solver].
    destruct (split_sign _) as [neg body].
    destruct (float_body neg body) as [f|]; [|simpl in Hp; simplify_eq; set_solver].
    simpl in Hp. destruct (float_mul f _); simpl in Hp; simplify_eq; set_solver.
  - rewrite Hloop in Hp. destruct (int_of_str h) as [n|e'] eqn:Hint; [done|].
    apply int_of_str_error in Hint as [msg ->]. by simplify_eq.
Qed.

End ConversionFacts.


(** "666m", the hint of the corpus named in the source, in lower case. *)
Lemma parse_suffixed_integer_witness :
  parse_humanized_string "666m" = Ok 666000000.
Proof.
  exact (parse_suffixed_integer (Py.chars "666") "m" (10 ^ 6)
           ltac:(done) ltac:(by repeat constructor)
           ltac:(unfold multipliers; set_solver) ltac:(by vm_compute)).
Defined.

(** "1..5M" ends in a suffix: what it raises is not the format error. *)
Lemma parse_error_kinds_witness :
  ValueError "could not convert string to float"
    ∈ [ValueError "could not convert string to float";
       ValueError "cannot convert float NaN to integer";
       OverflowError "cannot convert float infinity to integer"].
Proof.
  exact (parse_error_kinds "1..5M" (ValueError "could not convert string to float") eq_refl).
Defined.

(** ** The stride *)

Section StrideFacts.
Import Py FloatFacts.

Lemma digits2_mul v w :
  Zpos (digits2_pos (v * w)) <= Zpos (digits2_pos v) + Zpos (digits2_pos w).
Proof.
  apply digits2_le. destruct (digits2_bounds v), (digits2_bounds w).
  rewrite Z.pow_add_r, Pos2Z.inj_mul by lia. nia.
Qed.

Lemma div_eucl_mul q b : 0 < b -> Z.div_eucl (q * b) b = (q, 0).
Proof.
  intros Hb. pose proof (Z.div_mul q b ltac:(lia)) as Hd.
  pose proof (Z.mod_mul q b ltac:(lia)) as Hm.
  unfold Z.div, Z.modulo in *. by destruct (Z.div_eucl (q * b) b) as [? ?]; subst.
Qed.

(** The quotient of a multiple [k * n] by [n], as a float. *)
Lemma float_of_ratio_multiple neg (k n : positive) :
  Zpos k * Zpos n < 2 ^ prec ->
  float_of_ratio neg (k * n) n =
  S754_finite neg (Pos.shiftl_nat k (Z.to_nat (prec - Zpos (digits2_pos k))))
    (Zpos (digits2_pos k) - prec).
Proof.
  intros Hlt. unfold float_of_ratio, SFdiv_core_binary. simpl Zdigits2.
  rewrite !Z.add_0_r, Z.sub_0_r.
  pose proof (digits2_mul k n) as Hmul.
  assert (Hkn : Zpos (digits2_pos (k * n)) <= prec) by (apply digits2_le; lia).
  assert (Hn : Zpos (digits2_pos n) <= Zpos (digits2_pos (k * n))).
  { apply digits2_mono. nia. }
  assert (Hk : Zpos (digits2_pos k) <= Zpos (digits2_pos (k * n))).
  { apply digits2_mono. nia. }
  set (dkn := Zpos (digits2_pos (k * n))) in *.
  set (dn := Zpos (digits2_pos n)) in *.
  set (dk := Zpos (digits2_pos k)) in *.
  assert (1 <= dk) by (unfold dk; lia).
  assert (Hf : fexp prec emax (dkn - dn) = dkn - dn - prec).
  { unfold fexp, emin, prec, emax in *. lia. }
  rewrite Hf. rewrite Z.min_l by (unfold prec in *; lia).
  replace (0 - (dkn - dn - prec)) with (prec + dn - dkn) by lia.
  destruct (prec + dn - dkn) as [|s|s] eqn:Hs; [unfold prec in *; lia| |lia].
  rewrite Z.shiftl_mul_pow2 by lia.
  replace (Zpos (k * n) * 2 ^ Zpos s) with (Zpos k * 2 ^ Zpos s * Zpos n)
    by (rewrite Pos2Z.inj_mul; ring).
  rewrite div_eucl_mul by lia.
  cbv beta iota zeta.
  assert (Hloc : new_location (Zpos n) 0 = loc_Exact).
  { unfold new_location. by destruct (Z.even (Zpos n)). }
  rewrite Hloc.
  replace (Zpos k * 2 ^ Zpos s) with (Zpos (Pos.shiftl_nat k (Pos.to_nat s)))
    by (by rewrite shiftl_nat_pow, positive_nat_Z).
  replace (dkn - dn - prec) with (- Z.of_nat (Pos.to_nat s)) by lia.
  apply binary_round_aux_exact; fold dk; lia.
Qed.

(** [int(a / b)] when [b] divides [a] and [a] is below [2^53]: the quotient. *)
Lemma stride_multiple_pos (k n : positive) :
  Zpos k * Zpos n < 2 ^ 53 -> stride (Zpos (k * n)) (Zpos n) = Ok (Zpos k).
Proof.
  intros Hlt. unfold stride, int_truediv.
  rewrite float_of_ratio_multiple by done.
  unfold mbind, result_bind. cbv beta iota.
  replace (Zpos (digits2_pos k) - prec)
    with (- Z.of_nat (Z.to_nat (prec - Zpos (digits2_pos k)))).
  - by rewrite int_of_float_exact.
  - assert (Zpos (digits2_pos k) <= prec) by (apply digits2_le; unfold prec; nia). lia.
Qed.

End StrideFacts.

(** X8.  The stride is the exact quotient when the number of lines asked for
    divides the size hint and the hint is below [2^53]. *)
Theorem stride_of_multiple (k num_lines : Z) :
  0 < k -> 0 < num_lines -> k * num_lines < 2 ^ 53 ->
  stride (k * num_lines) num_lines = Ok k.
Proof.
  intros Hk Hn Hlt. destruct k as [|k|k]; [lia| |lia].
  destruct num_lines as [|n|n]; [lia| |lia].
  by apply (stride_multiple_pos k n).
Qed.

Lemma stride_of_multiple_witness : stride (66600 * 10000) 10000 = Ok 66600.
Proof. apply stride_of_multiple; lia. Defined.

(** ** The sampler at its edges *)

Section SamplerEdges.

Context {rng : Type} (randbelow : Z -> rng -> Z * rng).
Context (bz2_file : string -> result (list string)).

Hypothesis randbelow_range :
  forall n g, 0 < n -> 0 <= (randbelow n g).1 < n.

Lemma draws_one n g : Forall (fun d => d = 0) (draws randbelow 1 n g).
Proof.
  revert g. induction n as [|n IH]; intros g; simpl; constructor.
  - pose proof (randbelow_range 1 g). lia.
  - apply IH.
Qed.

Lemma admitted_all lines ds :
  length ds = length lines -> Forall (fun d => d = 0) ds -> admitted lines ds = lines.
Proof.
  revert ds. induction lines as [|aline lines IH]; intros [|d ds] Hlen Hds;
    simplify_eq/=; [done|].
  inversion Hds; subst. rewrite admitted_cons. simpl. f_equal. by apply IH.
Qed.

(** X9.  When as many lines are asked for as the size hint counts, the stride is
    1, every draw is 0 and the whole file is returned, in its order. *)
Theorem sample_bz2_whole_file file_path total_lines lines g :
  size_hint file_path = Ok total_lines ->
  0 < total_lines < 2 ^ 53 ->
  bz2_file file_path = Ok lines ->
  sample_bz2 randbelow bz2_file file_path total_lines g =
  Ok (lines, after_draws randbelow 1 (length lines) g).
Proof.
  intros Hhint Htotal Hfile. unfold sample_bz2.
  rewrite Hhint. simpl. rewrite Hfile. simpl.
  destruct total_lines as [|n|n]; [lia| |lia].
  pose proof (stride_multiple_pos 1 n) as Hs.
  change (1 * n)%positive with n in Hs. rewrite Hs by lia. simpl.
  rewrite (sample_loop_admitted randbelow) by lia. simpl.
  by rewrite admitted_all by (by rewrite ?(draws_length randbelow); try apply draws_one).
Qed.

End SamplerEdges.

(** A file of three lines and a hint of three lines. *)
Lemma sample_bz2_whole_file_witness :
  sample_bz2 Scenario.counter_randbelow (fun _ => Ok ["C"; "CC"; "CCC"])
    "tiny_0.003K.cxsmiles.bz2" 3 5 = Ok (["C"; "CC"; "CCC"], 8).
Proof.
  exact (sample_bz2_whole_file Scenario.counter_randbelow
           (fun _ => Ok ["C"; "CC"; "CCC"])
           (fun n g Hn => Z.mod_pos_bound g n Hn)
           "tiny_0.003K.cxsmiles.bz2" 3 ["C"; "CC"; "CCC"] 5
           eq_refl ltac:(lia) eq_refl).
Defined.

Section SamplerErrors.

Context {rng : Type} (randbelow : Z -> rng -> Z * rng).
Context (bz2_file : string -> result (list string)).

(** X10.  An empty file gives the empty list whatever the stride, also a stride
    below 1, and the generator is not used. *)
Theorem sample_bz2_empty_file file_path num_lines total_lines num g :
  size_hint file_path = Ok total_lines ->
  bz2_file file_path = Ok [] ->
  stride total_lines num_lines = Ok num ->
  sample_bz2 randbelow bz2_file file_path num_lines g = Ok ([], g).
Proof.
  intros Hhint Hfile Hstride. unfold sample_bz2.
  rewrite Hhint. simpl. rewrite Hfile. simpl. by rewrite Hstride.
Qed.

(** X11.  With a stride below 1 and a file that has a line, [randrange] raises at
    the first line, whatever the generator. *)
Theorem sample_bz2_no_stride file_path num_lines total_lines num aline lines g :
  size_hint file_path = Ok total_lines ->
  bz2_file file_path = Ok (aline :: lines) ->
  stride total_lines num_lines = Ok num ->
  num <= 0 ->
  sample_bz2 randbelow bz2_file file_path num_lines g =
  Raise (ValueError "empty range for randrange()").
Proof.
  intros Hhint Hfile Hstride Hnum. unfold sample_bz2.
  rewrite Hhint. simpl. rewrite Hfile. simpl. rewrite Hstride. simpl.
  unfold randrange. by destruct (Z.ltb_spec 0 num); [lia|].
Qed.


End SamplerErrors.

(** An empty file, with more lines asked for than the hint counts. *)
Lemma sample_bz2_empty_file_witness :
  sample_bz2 Scenario.counter_randbelow (fun _ => Ok [])
    "Enamine_REAL_1K.cxsmiles.bz2" 2000 7 = Ok ([], 7).
Proof.
  exact (sample_bz2_empty_file Scenario.counter_randbelow (fun _ => Ok [])
           "Enamine_REAL_1K.cxsmiles.bz2" 2000 1000 0 7 eq_refl eq_refl eq_refl).
Defined.

(** A negative number of lines asked for. *)
Lemma sample_bz2_no_stride_witness :
  sample_bz2 Scenario.counter_randbelow (fun _ => Ok ["CCO"])
    "Enamine_REAL_1K.cxsmiles.bz2" (-10) 0 =
  Raise (ValueError "empty range for randrange()").
Proof.
  exact (sample_bz2_no_stride Scenario.counter_randbelow (fun _ => Ok ["CCO"])
           "Enamine_REAL_1K.cxsmiles.bz2" (-10) 1000 (-100) "CCO" [] 0
           eq_refl eq_refl eq_refl ltac:(lia)).
Defined.


(** ** The keys of the document *)

Module StemFacts.
Import Path.

Lemma split_parts_no_sep sep l : Forall (fun part => sep ∉ part) (split sep l).
Proof.
  induction l as [|c l IH]; simpl.
  - constructor; [set_solver|constructor].
  - destruct (Ascii.eqb_spec c sep) as [->|Hne].
    + constructor; [set_solver|done].
    + destruct (split sep l) as [|part parts]; [repeat constructor; set_solver|].
      inversion IH; subst. constructor; [set_solver|done].
Qed.

Lemma last_elem {A} (l : list A) d : List.last l d = d \/ List.last l d ∈ l.
Proof.
  induction l as [|x [|y l] IH]; [by left|right; set_solver|].
  destruct IH as [IH|IH]; [left|right]; simpl in *; [done|set_solver].
Qed.

Lemma name_chars_plain l :
  ("/"%char ∉ name_chars l) /\ name_chars l <> ["."%char].
Proof.
  unfold name_chars, parts.
  destruct (last_elem (filter (fun part => part ≠ [] ∧ part ≠ ["."%char]) (split "/" l)) [])
    as [->|Hin]; [split; [set_solver|done]|].
  apply list_elem_of_filter in Hin as [[_ Hdot] Hin]. split; [|done].
  pose proof (split_parts_no_sep "/" l) as Hall.
  rewrite Forall_forall in Hall. by apply Hall.
Qed.

Lemma stem_chars_prefix l : stem_chars l `prefix_of` name_chars l.
Proof.
  unfold stem_chars. destruct (_ && _); [|done].
  apply prefix_take.
Qed.

End StemFacts.

(** The stem of a path holds no slash, starts its name, and is empty only
    when the name is. *)
Lemma stem_plain_name (p : string) :
  ("/"%char ∉ Py.chars (Path.stem p)) /\
  (Py.chars (Path.stem p) `prefix_of` Py.chars (Path.name p)) /\
  (Path.stem p = "" <-> Path.name p = "").
Proof.
  unfold Path.stem, Path.name. rewrite !chars_str.
  pose proof (StemFacts.stem_chars_prefix (Py.chars p)) as Hpre.
  destruct (StemFacts.name_chars_plain (Py.chars p)) as [Hsep _].
  split; [|split; [done|]].
  - intros Hin. apply Hsep. destruct Hpre as [r ->]. set_solver.
  - unfold Path.stem_chars in *.
    set (name := Path.name_chars (Py.chars p)) in *.
    destruct ((0 <? Path.rfind_dot name) &&
              (Path.rfind_dot name <? Z.of_nat (length name) - 1)) eqn:Hc; [|done].
    apply andb_true_iff in Hc as [Hlo%Z.ltb_lt Hhi%Z.ltb_lt].
    destruct name as [|c name']; [simpl in *; lia|].
    replace (Z.to_nat (Path.rfind_dot (c :: name'))) with
      (S (Z.to_nat (Path.rfind_dot (c :: name') - 1))) by lia.
    simpl. split; intros; discriminate.
Qed.

(** ** The run and its effects *)

Section RunFacts.

Context {filter_t : Type}.
Context (BloomFilter : string -> result filter_t).
Context (contains : filter_t -> string -> bool).
Context (glob : string -> list string).
Context (read_lines : string -> result (list string)).

(** X13.  The key under which [bloom_match] returns its matches is a plain name: it
    holds no slash, it starts the last component of the path, and it is empty
    only when the path has no last component. *)
Theorem bloom_match_key (bloom_file : string) (smiles : list string) (bf : filter_t) :
  BloomFilter bloom_file = Ok bf ->
  exists key,
    bloom_match BloomFilter contains bloom_file smiles =
      Ok {[ key := members contains bf smiles ]} /\
    ("/"%char ∉ Py.chars key) /\
    (Py.chars key `prefix_of` Py.chars (Path.name bloom_file)) /\
    (key = "" <-> Path.name bloom_file = "").
Proof.
  intros Hbf. exists (Path.stem bloom_file).
  split; [by apply bloom_match_Ok|]. apply stem_plain_name.
Qed.

Lemma dispatched_tasks files : dispatched (map TaskDispatched files) = files.
Proof. induction files as [|f files IH]; simpl; [done|]. by rewrite IH. Qed.

Lemma dispatched_app t1 t2 : dispatched (t1 ++ t2) = dispatched t1 ++ dispatched t2.
Proof. apply omap_app. Qed.


Lemma no_pool_in_tasks n files : PoolStarted n ∉ map TaskDispatched files.
Proof. intros (? & ? & _)%list_elem_of_fmap. done. Qed.

(** The shape of the trace of a run, by its outcome. *)
Lemma find_matches_trace glob_exp num_procs smiles_file out_file include_unmatched r trace :
  find_matches BloomFilter contains glob read_lines
    glob_exp num_procs smiles_file out_file include_unmatched = (r, trace) ->
  let started :=
    PoolStarted (if num_procs <? 1 then Z.of_nat (length (glob glob_exp)) else num_procs)
    :: map TaskDispatched (glob glob_exp) in
  glob glob_exp <> [] /\
    ((exists e, r = Raise e /\ trace = started) \/
     (exists doc, r = Ok tt /\ trace = started ++ [FileWritten out_file doc])) \/
  (exists e, r = Raise e /\ trace = []).
Proof.
  unfold find_matches. destruct (glob glob_exp) as [|f fs] eqn:Hglob.
  { intros [= <- <-]. right. by eexists. }
  destruct (read_lines smiles_file) as [in_file|e].
  2:{ intros [= <- <-]. right. by eexists. }
  destruct (pool_map _ (f :: fs)) as [results|e]; intros [= <- <-]; left;
    (split; [done|]); [right|left]; by eexists.
Qed.


(** X15.  A pool is started with at least one process: as many as asked for, or one
    per filter when fewer than one was asked for.  Once it is started, one task
    is dispatched for each path of the glob pattern, in the order of the paths. *)
Theorem find_matches_pool
  (glob_exp : string) (num_procs : Z) (smiles_file out_file : string)
  (include_unmatched : bool) :
  let run := find_matches BloomFilter contains glob read_lines
               glob_exp num_procs smiles_file out_file include_unmatched in
  forall n,
    PoolStarted n ∈ run.2 ->
    1 <= n /\
    n = (if num_procs <? 1 then Z.of_nat (length (glob glob_exp)) else num_procs) /\
    dispatched run.2 = glob glob_exp.
Proof.
  intros run n. destruct run as [r trace] eqn:Hrun. unfold run in Hrun. simpl.
  apply find_matches_trace in Hrun. cbv zeta in Hrun.
  assert (Hsize : glob glob_exp <> [] ->
            1 <= (if num_procs <? 1 then Z.of_nat (length (glob glob_exp)) else num_procs)).
  { intros Hne. destruct (Z.ltb_spec num_procs 1); [|done].
    destruct (glob glob_exp); [done|]. simpl. lia. }
  destruct Hrun as [[Hne [(e & -> & ->)|(doc & -> & ->)]]|(e & -> & ->)].
  - intros [Hin|Hin%no_pool_in_tasks]%elem_of_cons; [|done]. simplify_eq.
    split; [by apply Hsize|]. split; [done|]. simpl. apply dispatched_tasks.
  - intros [Hin|Hin]%elem_of_app.
    + apply elem_of_cons in Hin as [Hin|Hin%no_pool_in_tasks]; [|done]. simplify_eq.
      split; [by apply Hsize|]. split; [done|]. rewrite dispatched_app. simpl.
      by rewrite dispatched_tasks, app_nil_r.
    + apply list_elem_of_singleton in Hin. done.
  - intros Hin. by apply elem_of_nil in Hin.
Qed.



Lemma merge_values_loaded (Q : list string -> Prop) smiles files results d k v :
  Forall2 (task_result BloomFilter contains smiles) files results ->
  (forall path bf, path ∈ files -> BloomFilter path = Ok bf ->
                   Q (members contains bf smiles)) ->
  (forall k' v', d !! k' = Some v' -> Q v') ->
  merge results d !! k = Some v -> Q v.
Proof.
  intros Hres. revert d.
  induction Hres as [|path r files rs (bf & Hbf & ->) _ IH]; intros d HQ Hd; simpl.
  - apply Hd.
  - apply IH.
    + intros path' bf' Hin. apply HQ. set_solver.
    + intros k' v' [Hv|[_ Hv]]%lookup_union_Some_raw; [|by eapply Hd].
      apply lookup_singleton_Some in Hv as [_ <-]. eapply HQ; [|done]. set_solver.
Qed.

(** X17.  Every sequence of the written document, the "unmatched" one too, is a
    subsequence of the queries in their order, and every query in it is a line
    of the query file without the blanks and line ends around it. *)
Theorem document_sequences
  (glob_exp : string) (num_procs : Z) (smiles_file out_file : string)
  (include_unmatched : bool) (trace : list event) :
  find_matches BloomFilter contains glob read_lines
    glob_exp num_procs smiles_file out_file include_unmatched = (Ok tt, trace) ->
  exists in_file document,
    read_lines smiles_file = Ok in_file /\
    last trace = Some (FileWritten out_file document) /\
    forall key seq,
      document !! key = Some seq ->
      seq `sublist_of` map Py.strip in_file /\
      forall q, q ∈ seq -> Py.strip q = q.
Proof.
  intros (in_file & results & Hread & Hres & Hlast)%find_matches_Ok.
  eexists in_file, _. split; [done|]. split; [exact Hlast|].
  set (smiles := map Py.strip in_file).
  assert (Hstrip : forall seq, seq `sublist_of` smiles -> forall q, q ∈ seq -> Py.strip q = q).
  { intros seq Hsub q Hq. eapply elem_of_sublist in Hq; [|exact Hsub].
    apply list_elem_of_fmap in Hq as (line & -> & _). apply strip_strip. }
  assert (Hmerged : forall key seq, merge results ∅ !! key = Some seq ->
                                    seq `sublist_of` smiles).
  { intros key seq. apply (merge_values BloomFilter contains (fun v => v `sublist_of` smiles)
                             smiles (glob glob_exp) results ∅ key seq Hres); [|done].
    intros bf. apply members_sublist. }
  intros key seq Hkey.
  assert (Hsub : seq `sublist_of` smiles).
  { destruct include_unmatched; [|by eapply Hmerged].
    rewrite add_unmatched_eq in Hkey.
    destruct (decide (key = unmatched_key)) as [->|Hne].
    - rewrite lookup_insert_eq in Hkey. simplify_eq. apply not_in_sublist.
    - rewrite lookup_insert_ne in Hkey by done. by eapply Hmerged. }
  split; [done|]. by apply Hstrip.
Qed.

(** X18.  When no structure of the run reports any query as a member, the
    "unmatched" sequence is the whole list of queries, with its order and its
    repetitions, and every other sequence is empty. *)
Theorem unmatched_is_everything
  (glob_exp : string) (num_procs : Z) (smiles_file out_file : string)
  (in_file : list string) (trace : list event) :
  find_matches BloomFilter contains glob read_lines
    glob_exp num_procs smiles_file out_file true = (Ok tt, trace) ->
  read_lines smiles_file = Ok in_file ->
  (forall path bf q,
      path ∈ glob glob_exp -> BloomFilter path = Ok bf ->
      q ∈ map Py.strip in_file -> contains bf q = false) ->
  exists document,
    last trace = Some (FileWritten out_file document) /\
    document !! unmatched_key = Some (map Py.strip in_file) /\
    forall key seq, key <> unmatched_key -> document !! key = Some seq -> seq = [].
Proof.
  intros (in_file' & results & Hread' & Hres & Hlast)%find_matches_Ok Hread Hnone.
  rewrite Hread in Hread'. injection Hread' as <-.
  rewrite add_unmatched_eq in Hlast. eexists. split; [exact Hlast|].
  set (smiles := map Py.strip in_file) in *.
  assert (Hempty : forall key seq, merge results ∅ !! key = Some seq -> seq = []).
  { intros key seq. apply (merge_values_loaded (fun v => v = [])
                             smiles (glob glob_exp) results ∅ key seq Hres); [|done].
    intros path bf Hin Hbf. unfold members.
    assert (Hall : forall q, q ∈ smiles -> contains bf q = false) by eauto.
    clear -Hall. induction smiles as [|q qs IH]; simpl; [done|].
    rewrite (Hall q) by set_solver. apply IH. intros q' Hq'. apply Hall. set_solver. }
  split.
  - rewrite lookup_insert_eq. f_equal.
    assert (Hno : forall q, q ∉ chain_values (<[unmatched_key := []]> (merge results ∅))).
    { intros q (key & seq & Hkey & Hq)%elem_of_chain_values.
      destruct (decide (key = unmatched_key)) as [->|Hne].
      - rewrite lookup_insert_eq in Hkey. simplify_eq. by apply elem_of_nil in Hq.
      - rewrite lookup_insert_ne in Hkey by done.
        apply Hempty in Hkey as ->. by apply elem_of_nil in Hq. }
    unfold not_in. generalize smiles. intros l.
    induction l as [|q l IH]; simpl; [done|].
    rewrite bool_decide_eq_false_2 by apply Hno. simpl. by rewrite IH.
  - intros key seq Hne Hkey. rewrite lookup_insert_ne in Hkey by done. by eapply Hempty.
Qed.

End RunFacts.

(** The key of the filter [A] of the scenario. *)
Lemma bloom_match_key_witness :
  exists key,
    bloom_match (Scenario.load Scenario.filters) Scenario.member
      "filters/A.bloom" Scenario.queries = Ok {[ key := ["CCO"] ]} /\
    ("/"%char ∉ Py.chars key).
Proof.
  destruct (bloom_match_key (Scenario.load Scenario.filters) Scenario.member
              "filters/A.bloom" Scenario.queries ["CCO"] eq_refl)
    as (key & Hkey & Hsep & _).
  exists key. split; [exact Hkey|exact Hsep].
Defined.

(** The pool of the scenario. *)
Lemma find_matches_pool_witness :
  1 <= 2 /\
  2 = Z.of_nat (length (Scenario.filters.*1)) /\
  dispatched (Scenario.run Scenario.filters Scenario.queries true).2 =
    ["filters/A.bloom"; "filters/B.bloom"].
Proof.
  assert (Hpool : PoolStarted 2 ∈
            (Scenario.run Scenario.filters Scenario.queries true).2)
    by (rewrite scenario_run; cbn [snd]; constructor).
  exact (find_matches_pool (Scenario.load Scenario.filters) Scenario.member
           (fun _ => Scenario.filters.*1) (fun _ => Ok Scenario.queries)
           "filters/*.bloom" (-1) "queries.smi" "results.json" true 2 Hpool).
Defined.


(** The sequences of the document of the scenario. *)
Lemma document_sequences_witness :
  exists document,
    last (Scenario.run Scenario.filters Scenario.queries true).2 =
      Some (FileWritten "results.json" document) /\
    forall key seq, document !! key = Some seq -> seq `sublist_of` Scenario.queries.
Proof.
  destruct (document_sequences (Scenario.load Scenario.filters) Scenario.member
              (fun _ => Scenario.filters.*1) (fun _ => Ok Scenario.queries)
              "filters/*.bloom" (-1) "queries.smi" "results.json" true _ scenario_run)
    as (in_file & document & Hread & Hlast & Hseq).
  exists document. rewrite scenario_run. split; [done|].
  injection Hread as <-. intros key seq Hkey. by destruct (Hseq key seq Hkey).
Defined.

(** The filters of the scenario on queries they do not hold. *)
Example scenario_no_member :
  Scenario.run Scenario.filters ["CCC"; "CCS"; "CCC"] true =
  (Ok tt,
   [PoolStarted 2; TaskDispatched "filters/A.bloom"; TaskDispatched "filters/B.bloom";
    FileWritten "results.json"
      (<["A" := []]> (<["B" := []]> {[ "unmatched" := ["CCC"; "CCS"; "CCC"] ]}))]).
Proof. by vm_compute. Qed.

(** There the "unmatched" sequence is the list of the queries. *)
Lemma unmatched_is_everything_witness :
  exists document,
    last (Scenario.run Scenario.filters ["CCC"; "CCS"; "CCC"] true).2 =
      Some (FileWritten "results.json" document) /\
    document !! unmatched_key = Some ["CCC"; "CCS"; "CCC"].
Proof.
  assert (Hnone : forall path bf q,
            path ∈ Scenario.filters.*1 ->
            Scenario.load Scenario.filters path = Ok bf ->
            q ∈ map Py.strip ["CCC"; "CCS"; "CCC"] ->
            Scenario.member bf q = false).
  { intros path bf q Hpath Hbf Hq.
    change (path ∈ ["filters/A.bloom"; "filters/B.bloom"]) in Hpath.
    change (q ∈ ["CCC"; "CCS"; "CCC"]) in Hq.
    repeat (apply elem_of_cons in Hpath as [->|Hpath]);
      [| |by apply elem_of_nil in Hpath];
      vm_compute in Hbf; injection Hbf as <-;
      (repeat (apply elem_of_cons in Hq as [->|Hq]);
       [by vm_compute..|by apply elem_of_nil in Hq]). }
  destruct (unmatched_is_everything (Scenario.load Scenario.filters) Scenario.member
              (fun _ => Scenario.filters.*1) (fun _ => Ok ["CCC"; "CCS"; "CCC"])
              "filters/*.bloom" (-1) "queries.smi" "results.json"
              ["CCC"; "CCS"; "CCC"] _ scenario_no_member eq_refl Hnone)
    as (document & Hlast & Hkey & _).
  exists document. rewrite scenario_no_member. auto.
Defined.
